(** * Shallow embedding of stellar-core's bucket applicator, entry frames
      (TrustFrame, DataFrame), the trust-line accumulator and the entry cache.

    Integers of the C++ source (int64_t, uint32) are modelled as [Z]; the
    arithmetic that the code performs on them never leaves the int64 range on
    well-formed trust lines (signed overflow is undefined behaviour in C++, so
    there is no wrap-around to write out).  A C++ [assert] or a thrown
    exception is modelled by [None] in the [option] result. *)

From Stdlib Require Import ZArith Lia Bool.
From stdpp Require Import base gmap strings list fin_maps.

Open Scope Z_scope.

(* ------------------------------------------------------------------ *)
(** ** XDR data model *)

Definition INT64_MAX : Z := 9223372036854775807.

(** [AUTHORIZED_FLAG] of the XDR [TrustLineFlags] enum. *)
Definition AUTHORIZED_FLAG : Z := 1.

Inductive Asset :=
| ASSET_TYPE_NATIVE
| ASSET_TYPE_CREDIT_ALPHANUM4 (assetCode : string) (issuer : string)
| ASSET_TYPE_CREDIT_ALPHANUM12 (assetCode : string) (issuer : string).

Record Liabilities := mkLiabilities { buying : Z; selling : Z }.

(** [TrustLineEntry::ext]: version 0 carries no liabilities, version 1 does. *)
Inductive TrustLineEntryExt :=
| ExtV0
| ExtV1 (liabilities : Liabilities).

Record TrustLineEntry := mkTrustLineEntry {
  accountID : string;
  asset : Asset;
  balance : Z;
  limit : Z;
  flags : Z;
  ext : TrustLineEntryExt
}.

(** A [TrustFrame]: the trust-line entry ([mTrustLine], a view of [mEntry]),
    the entry's [lastModifiedLedgerSeq] and the [mIsIssuer] marker. *)
Record TrustFrame := mkTrustFrame {
  mTrustLine : TrustLineEntry;
  lastModified : Z;
  mIsIssuer : bool
}.

(** The only part of [LedgerManager] the trust-line code reads. *)
Definition LedgerVersion := Z.

Definition set_balance (tl : TrustLineEntry) (b : Z) : TrustLineEntry :=
  mkTrustLineEntry (accountID tl) (asset tl) b (limit tl) (flags tl) (ext tl).

Definition set_ext (tl : TrustLineEntry) (e : TrustLineEntryExt) : TrustLineEntry :=
  mkTrustLineEntry (accountID tl) (asset tl) (balance tl) (limit tl) (flags tl) e.

Definition set_flags (tl : TrustLineEntry) (f : Z) : TrustLineEntry :=
  mkTrustLineEntry (accountID tl) (asset tl) (balance tl) (limit tl) f (ext tl).

Definition with_line (tf : TrustFrame) (tl : TrustLineEntry) : TrustFrame :=
  mkTrustFrame tl (lastModified tf) (mIsIssuer tf).

(* ------------------------------------------------------------------ *)
(** ** [stellar::addBalance] (util/types.cpp) *)

(** Modelled from the spec: [stellar::addBalance(balance, delta, maxBalance)]
    of util/types.cpp is not part of the sources.  The spec describes it as
    computing [newBalance = balance + delta] and failing when the result
    leaves [[0, maxBalance]]; on success the by-reference [balance] becomes
    [newBalance].  Returns the success flag and the new value of the
    by-reference argument. *)
Definition addBalance_util (bal delta maxBalance : Z) : bool * Z :=
  let newBalance := bal + delta in
  if (0 <=? newBalance) && (newBalance <=? maxBalance)
  then (true, newBalance)
  else (false, bal).

(* ------------------------------------------------------------------ *)
(** ** Trust-line accessors and mutators (TrustFrame.cpp) *)

Module TrustLine.

(** The liability fields as read by the code: [(ext.v() == 0) ? 0 : ...]. *)
Definition buyingLiab (tl : TrustLineEntry) : Z :=
  match ext tl with ExtV0 => 0 | ExtV1 l => buying l end.

Definition sellingLiab (tl : TrustLineEntry) : Z :=
  match ext tl with ExtV0 => 0 | ExtV1 l => selling l end.

(** [stellar::getBuyingLiabilities(tl, lm)] with its
    [assert(lm.getCurrentLedgerVersion() >= 10)]. *)
Definition getBuyingLiabilities (tl : TrustLineEntry) (v : LedgerVersion) : option Z :=
  if 10 <=? v then Some (buyingLiab tl) else None.

Definition getSellingLiabilities (tl : TrustLineEntry) (v : LedgerVersion) : option Z :=
  if 10 <=? v then Some (sellingLiab tl) else None.

Definition getBalance (tf : TrustFrame) : Z := balance (mTrustLine tf).

Definition isAuthorized (tf : TrustFrame) : bool :=
  negb (Z.land (flags (mTrustLine tf)) AUTHORIZED_FLAG =? 0).

Definition setAuthorized (tf : TrustFrame) (authorized : bool) : TrustFrame :=
  let f := flags (mTrustLine tf) in
  with_line tf (set_flags (mTrustLine tf)
    (if authorized then Z.lor f AUTHORIZED_FLAG
     else Z.land f (Z.lnot AUTHORIZED_FLAG))).

(** [TrustFrame::addBalance(delta, lm)]: the result flag and the frame after
    the call. *)
Definition addBalance (tf : TrustFrame) (delta : Z) (v : LedgerVersion)
  : option (bool * TrustFrame) :=
  if mIsIssuer tf || (delta =? 0) then Some (true, tf)
  else if negb (isAuthorized tf) then Some (false, tf)
  else
    let tl := mTrustLine tf in
    let '(ok, newBalance) := addBalance_util (balance tl) delta (limit tl) in
    if negb ok then Some (false, tf)
    else if 10 <=? v then
      match getSellingLiabilities tl v with
      | None => None
      | Some sl =>
        if newBalance <? sl then Some (false, tf)
        else match getBuyingLiabilities tl v with
             | None => None
             | Some bl =>
               if limit tl - bl <? newBalance then Some (false, tf)
               else Some (true, with_line tf (set_balance tl newBalance))
             end
      end
    else Some (true, with_line tf (set_balance tl newBalance)).

(** The liabilities extension after a successful liability update: a
    version-0 extension is first switched to version 1 with [Liabilities{0, 0}]. *)
Definition ext_v1 (tl : TrustLineEntry) : Liabilities :=
  match ext tl with ExtV0 => mkLiabilities 0 0 | ExtV1 l => l end.

(** [TrustFrame::addBuyingLiabilities(delta, lm)]. *)
Definition addBuyingLiabilities (tf : TrustFrame) (delta : Z) (v : LedgerVersion)
  : option (bool * TrustFrame) :=
  let tl := mTrustLine tf in
  if negb (10 <=? v) then None
  else if negb (0 <=? getBalance tf) then None
  else if negb (0 <=? limit tl) then None
  else if mIsIssuer tf || (delta =? 0) then Some (true, tf)
  else if negb (isAuthorized tf) then Some (false, tf)
  else
    let buyingLiab0 := match ext tl with ExtV0 => 0 | ExtV1 l => buying l end in
    let maxLiabilities := limit tl - getBalance tf in
    let '(res, buyingLiab1) := addBalance_util buyingLiab0 delta maxLiabilities in
    if res then
      let l := ext_v1 tl in
      Some (true, with_line tf (set_ext tl (ExtV1 (mkLiabilities buyingLiab1 (selling l)))))
    else Some (false, tf).

(** [TrustFrame::addSellingLiabilities(delta, lm)]. *)
Definition addSellingLiabilities (tf : TrustFrame) (delta : Z) (v : LedgerVersion)
  : option (bool * TrustFrame) :=
  let tl := mTrustLine tf in
  if negb (10 <=? v) then None
  else if negb (0 <=? getBalance tf) then None
  else if mIsIssuer tf || (delta =? 0) then Some (true, tf)
  else if negb (isAuthorized tf) then Some (false, tf)
  else
    let sellingLiab0 := match ext tl with ExtV0 => 0 | ExtV1 l => selling l end in
    let maxLiabilities := balance tl in
    let '(res, sellingLiab1) := addBalance_util sellingLiab0 delta maxLiabilities in
    if res then
      let l := ext_v1 tl in
      Some (true, with_line tf (set_ext tl (ExtV1 (mkLiabilities (buying l) sellingLiab1))))
    else Some (false, tf).

(** [TrustFrame::getMaxAmountReceive(lm)]. *)
Definition getMaxAmountReceive (tf : TrustFrame) (v : LedgerVersion) : option Z :=
  if mIsIssuer tf then Some INT64_MAX
  else if isAuthorized tf then
    let amount := limit (mTrustLine tf) - balance (mTrustLine tf) in
    if 10 <=? v then
      match getBuyingLiabilities (mTrustLine tf) v with
      | None => None
      | Some bl => Some (amount - bl)
      end
    else Some amount
  else Some 0.


(** [TrustFrame::getAvailableBalance(lm)]. *)
Definition getAvailableBalance (tf : TrustFrame) (v : LedgerVersion) : option Z :=
  let availableBalance := getBalance tf in
  if 10 <=? v then
    match getSellingLiabilities (mTrustLine tf) v with
    | None => None
    | Some sl => Some (availableBalance - sl)
    end
  else Some availableBalance.

(** [TrustFrame::getMinimumLimit(lm)]. *)
Definition getMinimumLimit (tf : TrustFrame) (v : LedgerVersion) : option Z :=
  let minLimit := getBalance tf in
  if 10 <=? v then
    match getBuyingLiabilities (mTrustLine tf) v with
    | None => None
    | Some bl => Some (minLimit + bl)
    end
  else Some minLimit.

End TrustLine.

(* ------------------------------------------------------------------ *)
(** ** Ledger entries, keys and the persisted rows *)

(** A [DataEntry]; its [DataValue] is kept in the form written to the
    [datavalue] column (the base64 encoding of util/Decoder is a bijection
    and plays no part in the properties below). *)
Record DataEntry := mkDataEntry {
  d_accountID : string;
  dataName : string;
  dataValue : string
}.

Inductive LedgerEntryData :=
| LE_TRUSTLINE (tl : TrustLineEntry)
| LE_DATA (d : DataEntry).

Record LedgerEntry := mkLedgerEntry {
  lastModifiedLedgerSeq : Z;
  data : LedgerEntryData
}.

Inductive LedgerKey :=
| LK_TRUSTLINE (accountID : string) (asset : Asset)
| LK_DATA (accountID : string) (dataName : string).

Global Instance Asset_eq_dec : EqDecision Asset.
Proof. solve_decision. Defined.

Global Instance LedgerKey_eq_dec : EqDecision LedgerKey.
Proof. solve_decision. Defined.

Definition asset_to_sum (a : Asset) : unit + (string * string) + (string * string) :=
  match a with
  | ASSET_TYPE_NATIVE => inl (inl ())
  | ASSET_TYPE_CREDIT_ALPHANUM4 c i => inl (inr (c, i))
  | ASSET_TYPE_CREDIT_ALPHANUM12 c i => inr (c, i)
  end.

Definition asset_of_sum (s : unit + (string * string) + (string * string)) : Asset :=
  match s with
  | inl (inl _) => ASSET_TYPE_NATIVE
  | inl (inr (c, i)) => ASSET_TYPE_CREDIT_ALPHANUM4 c i
  | inr (c, i) => ASSET_TYPE_CREDIT_ALPHANUM12 c i
  end.

Global Instance Asset_countable : Countable Asset.
Proof.
  apply (inj_countable' asset_to_sum asset_of_sum).
  by intros [|c i|c i].
Defined.

Definition key_to_sum (k : LedgerKey) : (string * Asset) + (string * string) :=
  match k with
  | LK_TRUSTLINE a s => inl (a, s)
  | LK_DATA a n => inr (a, n)
  end.

Definition key_of_sum (s : (string * Asset) + (string * string)) : LedgerKey :=
  match s with
  | inl (a, s) => LK_TRUSTLINE a s
  | inr (a, n) => LK_DATA a n
  end.

Global Instance LedgerKey_countable : Countable LedgerKey.
Proof.
  apply (inj_countable' key_to_sum key_of_sum).
  by intros [a s|a n].
Defined.

(** [trustlinesAccumulator::keyType]: the primary key
    [(accountid, issuer, assetcode)] of the [trustlines] table. *)
Abbreviation keyType := (string * string * string)%type.

(** [trustlinesAccumulator::valType], also the non-key columns of a
    [trustlines] row.  A liability column paired with its [soci::indicator]
    is an [option Z]: [None] for [i_null], [Some x] for [i_ok]. *)
Record valType := mkValType {
  assettype : Z;
  v_balance : Z;
  v_limit : Z;
  v_flags : Z;
  v_lastmodified : Z;
  buyingliabilities : option Z;
  sellingliabilities : option Z
}.

(** The non-key columns of an [accountdata] row. *)
Record DataRow := mkDataRow { datavalue : string; d_lastmodified : Z }.

(** The [Database] handle: the SQL tables it reaches through its session,
    the process-wide entry cache, and the number of statements executed on
    the session (every storage round trip counts one). *)
Record Database := mkDatabase {
  trustlines : gmap keyType valType;
  accountdata : gmap (string * string) DataRow;
  accountdata_bulk : gmap (string * string) DataRow;
  entryCache : gmap LedgerKey (option LedgerEntry);
  queries : nat
}.

Definition set_trustlines (db : Database) (t : gmap keyType valType) : Database :=
  mkDatabase t (accountdata db) (accountdata_bulk db) (entryCache db) (queries db).
Definition set_accountdata (db : Database) (t : gmap (string * string) DataRow) : Database :=
  mkDatabase (trustlines db) t (accountdata_bulk db) (entryCache db) (queries db).
Definition set_accountdata_bulk (db : Database) (t : gmap (string * string) DataRow) : Database :=
  mkDatabase (trustlines db) (accountdata db) t (entryCache db) (queries db).
Definition set_entryCache (db : Database) (c : gmap LedgerKey (option LedgerEntry)) : Database :=
  mkDatabase (trustlines db) (accountdata db) (accountdata_bulk db) c (queries db).

(** One statement executed on the session. *)
Definition tick (db : Database) : Database :=
  mkDatabase (trustlines db) (accountdata db) (accountdata_bulk db) (entryCache db) (S (queries db)).

(* ------------------------------------------------------------------ *)
(** ** Entry cache and ledger delta (EntryFrame.cpp, LedgerDelta.cpp) *)

Module EntryCache.

(** Modelled from the spec: [EntryFrame::flushCachedEntry] (EntryFrame.cpp,
    not in the sources) drops the cache slot of [key]. *)
Definition flushCachedEntry (key : LedgerKey) (db : Database) : Database :=
  set_entryCache db (delete key (entryCache db)).

(** Modelled from the spec: [EntryFrame::cachedEntryExists]: the cache has a
    slot for [key] (holding an entry or the "known absent" marker). *)
Definition cachedEntryExists (key : LedgerKey) (db : Database) : bool :=
  bool_decide (is_Some (entryCache db !! key)).

(** Modelled from the spec: [EntryFrame::getCachedEntry]: the cached entry,
    [None] standing for [nullptr] (no slot, or "known absent"). *)
Definition getCachedEntry (key : LedgerKey) (db : Database) : option LedgerEntry :=
  match entryCache db !! key with Some p => p | None => None end.

(** Modelled from the spec: [EntryFrame::putCachedEntry(key, p, db)]. *)
Definition putCachedEntry (key : LedgerKey) (p : option LedgerEntry) (db : Database) : Database :=
  set_entryCache db (<[key := p]> (entryCache db)).

End EntryCache.

(** What a [LedgerDelta] records.  [AddedOrModified] is the record left by
    [LedgerDelta::EntryModder], whose choice between the added and the
    modified set is made inside LedgerDelta, not in the sources. *)
Inductive DeltaRecord :=
| Added (e : LedgerEntry)
| Modified (e : LedgerEntry)
| AddedOrModified (e : LedgerEntry)
| Deleted (k : LedgerKey)
| Loaded (e : LedgerEntry).

(** Modelled from the spec: [LedgerDelta] (LedgerDelta.h/.cpp, not in the
    sources): the sequence number of the ledger header it tracks and the log
    of entries recorded as added, modified or deleted. *)
Record LedgerDelta := mkLedgerDelta {
  deltaLedgerSeq : Z;
  records : list DeltaRecord
}.

Definition record (d : LedgerDelta) (r : DeltaRecord) : LedgerDelta :=
  mkLedgerDelta (deltaLedgerSeq d) (records d ++ [r]).

Module Delta.
(** Modelled from the spec: [LedgerDelta::addEntry]. *)
Definition addEntry (d : LedgerDelta) (e : LedgerEntry) := record d (Added e).
(** Modelled from the spec: [LedgerDelta::modEntry]. *)
Definition modEntry (d : LedgerDelta) (e : LedgerEntry) := record d (Modified e).
(** Modelled from the spec: [LedgerDelta::deleteEntry]. *)
Definition deleteEntry (d : LedgerDelta) (k : LedgerKey) := record d (Deleted k).
(** Modelled from the spec: [LedgerDelta::recordEntry] (snapshot of a loaded entry). *)
Definition recordEntry (d : LedgerDelta) (e : LedgerEntry) := record d (Loaded e).
(** Modelled from the spec: the scope exit of [LedgerDelta::EntryModder]
    records the entry "as added or modified". *)
Definition entryModder (d : LedgerDelta) (e : LedgerEntry) := record d (AddedOrModified e).
(** Modelled from the spec: the scope exit of [LedgerDelta::EntryDeleter]
    records the key as deleted. *)
Definition entryDeleter (d : LedgerDelta) (k : LedgerKey) := record d (Deleted k).
End Delta.

(** Modelled from the spec: [EntryFrame::touch(delta)] (EntryFrame.cpp, not
    in the sources); per EntryFrame.h it sets the last-modified sequence to
    the delta's ledger sequence unless that sequence is 0. *)
Definition touch_seq (delta : LedgerDelta) (lastmod : Z) : Z :=
  if deltaLedgerSeq delta =? 0 then lastmod else deltaLedgerSeq delta.

(* ------------------------------------------------------------------ *)
(** ** The trust-line accumulator (TrustFrame.cpp) *)

(** [trustlinesAccumulator::mItems]: a staged upsert is [Some val], a staged
    delete is the empty [unique_ptr], [None]. *)
Abbreviation trustlinesAccumulator := (gmap keyType (option valType)).

Module Accumulator.

(** [trustlinesAccum->mItems[k] = move(val)] *)
Definition stageUpsert (k : keyType) (val : valType) (items : trustlinesAccumulator)
  : trustlinesAccumulator := <[k := Some val]> items.

(** [trustlinesAccum->mItems[k] = unique_ptr<valType>()] *)
Definition stageDelete (k : keyType) (items : trustlinesAccumulator)
  : trustlinesAccumulator := <[k := None]> items.

(** The loop of [~trustlinesAccumulator] over [mItems]: present values go to
    the insert/update vectors, empty ones to the delete vectors. *)
Fixpoint partitionItems (rows : list (keyType * option valType))
  : list (keyType * valType) * list keyType :=
  match rows with
  | [] => ([], [])
  | (k, None) :: rows' =>
      let '(ups, dels) := partitionItems rows' in (ups, k :: dels)
  | (k, Some v) :: rows' =>
      let '(ups, dels) := partitionItems rows' in ((k, v) :: ups, dels)
  end.

(** One execution of the vector-bound
    [INSERT ... ON CONFLICT (accountid, issuer, assetcode) DO UPDATE]:
    row by row, each row inserted or its existing row overwritten. *)
Definition bulkUpsert (ups : list (keyType * valType)) (t : gmap keyType valType)
  : gmap keyType valType :=
  fold_left (fun t kv => <[kv.1 := kv.2]> t) ups t.

(** One execution of the vector-bound [DELETE FROM trustlines WHERE ...]. *)
Definition bulkDelete (dels : list keyType) (t : gmap keyType valType)
  : gmap keyType valType :=
  fold_left (fun t k => delete k t) dels t.

(** [~trustlinesAccumulator]: the flush.  The upsert statement runs when
    there is a row to upsert, then the delete statement when there is a
    row to delete. *)
Definition flush (items : trustlinesAccumulator) (db : Database) : Database :=
  let '(ups, dels) := partitionItems (map_to_list items) in
  let db := match ups with
            | [] => db
            | _ => tick (set_trustlines db (bulkUpsert ups (trustlines db)))
            end in
  match dels with
  | [] => db
  | _ => tick (set_trustlines db (bulkDelete dels (trustlines db)))
  end.

End Accumulator.

(* ------------------------------------------------------------------ *)
(** ** TrustFrame storage operations (TrustFrame.cpp) *)

Module TrustStore.
Import EntryCache.

(** [LedgerEntryKey] of the frame's entry, as returned by [getKey()]. *)
Definition getKey (tf : TrustFrame) : LedgerKey :=
  LK_TRUSTLINE (accountID (mTrustLine tf)) (asset (mTrustLine tf)).

Definition toEntry (tf : TrustFrame) : LedgerEntry :=
  mkLedgerEntry (lastModified tf) (LE_TRUSTLINE (mTrustLine tf)).

(** [TrustFrame(LedgerEntry const&)]: [mEntry.data.trustLine()] throws on an
    entry of another type. *)
Definition fromEntry (e : LedgerEntry) : option TrustFrame :=
  match data e with
  | LE_TRUSTLINE tl => Some (mkTrustFrame tl (lastModifiedLedgerSeq e) false)
  | LE_DATA _ => None
  end.

(** Modelled from the spec: [getIssuer(asset)] (util/types.cpp, not in the
    sources): the issuer of a credit asset; the native asset has none
    (accessing the issuer of the native asset's XDR union throws). *)
Definition getIssuer (a : Asset) : option string :=
  match a with
  | ASSET_TYPE_NATIVE => None
  | ASSET_TYPE_CREDIT_ALPHANUM4 _ i => Some i
  | ASSET_TYPE_CREDIT_ALPHANUM12 _ i => Some i
  end.

(** [asset.type()] as the integer stored in the [assettype] column. *)
Definition assetTypeOf (a : Asset) : Z :=
  match a with
  | ASSET_TYPE_NATIVE => 0
  | ASSET_TYPE_CREDIT_ALPHANUM4 _ _ => 1
  | ASSET_TYPE_CREDIT_ALPHANUM12 _ _ => 2
  end.

(** [TrustFrame::getKeyFields]: the strings of [(accountid, issuer,
    assetcode)]; [KeyUtils::toStrKey] and [assetCodeToStr] are modelled as
    the identity on the string form of account ids and asset codes.  The
    issuer and code stay empty for the native asset; the function throws
    when the account is the issuer, and [key.trustLine()] throws on a key
    of another type. *)
Definition getKeyFields (key : LedgerKey) : option keyType :=
  match key with
  | LK_TRUSTLINE acc a =>
    let '(issuerStrKey, assetCode) :=
      match a with
      | ASSET_TYPE_NATIVE => (""%string, ""%string)
      | ASSET_TYPE_CREDIT_ALPHANUM4 c i => (i, c)
      | ASSET_TYPE_CREDIT_ALPHANUM12 c i => (i, c)
      end in
    if String.eqb acc issuerStrKey then None
    else Some (acc, issuerStrKey, assetCode)
  | LK_DATA _ _ => None
  end.

(** The row written for a frame: the liability columns are NULL when the
    extension is version 0. *)
Definition rowOf (tf : TrustFrame) : valType :=
  let tl := mTrustLine tf in
  let '(bl, sl) := match ext tl with
                   | ExtV0 => (None, None)
                   | ExtV1 l => (Some (buying l), Some (selling l))
                   end in
  mkValType (assetTypeOf (asset tl)) (balance tl) (limit tl) (flags tl)
            (lastModified tf) bl sl.

(** [touch(delta)] on a trust frame. *)
Definition touch (delta : LedgerDelta) (tf : TrustFrame) : TrustFrame :=
  mkTrustFrame (mTrustLine tf) (touch_seq delta (lastModified tf)) (mIsIssuer tf).

(** [TrustFrame::storeAddOrChange(delta, db, accums)]: the delta, the
    database, the accumulator and the frame after the call.  The
    [EntryModder] declared first records the frame at scope exit. *)
Definition storeAddOrChange (delta : LedgerDelta) (db : Database)
  (accums : option trustlinesAccumulator) (tf : TrustFrame)
  : option (LedgerDelta * Database * option trustlinesAccumulator * TrustFrame) :=
  let key := getKey tf in
  let db := flushCachedEntry key db in
  if mIsIssuer tf then Some (Delta.entryModder delta (toEntry tf), db, accums, tf)
  else
    let tf := touch delta tf in
    match getKeyFields key with
    | None => None
    | Some k =>
      let val := rowOf tf in
      match accums with
      | Some items =>
        Some (Delta.entryModder delta (toEntry tf), db,
              Some (Accumulator.stageUpsert k val items), tf)
      | None =>
        (* INSERT ... ON CONFLICT DO UPDATE affects exactly one row, so the
           [get_affected_rows() != 1] check never throws *)
        let db := tick (set_trustlines db (<[k := val]> (trustlines db))) in
        Some (Delta.entryModder delta (toEntry tf), db, None, tf)
      end
    end.

(** [TrustFrame::storeDelete(delta, db, key, accums)]; the [EntryDeleter]
    declared first records the key at scope exit. *)
Definition storeDelete (delta : LedgerDelta) (db : Database) (key : LedgerKey)
  (accums : option trustlinesAccumulator)
  : option (LedgerDelta * Database * option trustlinesAccumulator) :=
  let db := flushCachedEntry key db in
  match getKeyFields key with
  | None => None
  | Some k =>
    match accums with
    | Some items =>
      Some (Delta.entryDeleter delta key, db, Some (Accumulator.stageDelete k items))
    | None =>
      Some (Delta.entryDeleter delta key,
            tick (set_trustlines db (delete k (trustlines db))), None)
    end
  end.

(** [TrustFrame::exists(db, key)]. *)
Definition exists_ (db : Database) (key : LedgerKey) : option (bool * Database) :=
  if cachedEntryExists key db && bool_decide (is_Some (getCachedEntry key db))
  then Some (true, db)
  else match getKeyFields key with
       | None => None
       | Some k => Some (bool_decide (is_Some (trustlines db !! k)), tick db)
       end.

(** [TrustFrame::createIssuerFrame(issuer)]: a default [TrustLineEntry]
    (flags 0, extension version 0) filled in as the issuer's line. *)
Definition createIssuerFrame (a : Asset) : option TrustFrame :=
  match getIssuer a with
  | None => None
  | Some iss =>
    Some (mkTrustFrame
            (mkTrustLineEntry iss a INT64_MAX INT64_MAX
                              (Z.lor 0 AUTHORIZED_FLAG) ExtV0)
            0 true)
  end.

(** The body of the [loadLines] loop for one row: the entry it builds.
    [assert(buyingLiabilitiesInd == sellingLiabilitiesInd)] and an asset
    type outside the XDR enum fail. *)
Definition lineOfRow (k : keyType) (row : valType) : option LedgerEntry :=
  let '(acc, iss, code) := k in
  let a := if assettype row =? 0 then Some ASSET_TYPE_NATIVE
           else if assettype row =? 1 then Some (ASSET_TYPE_CREDIT_ALPHANUM4 code iss)
           else if assettype row =? 2 then Some (ASSET_TYPE_CREDIT_ALPHANUM12 code iss)
           else None in
  let e := match buyingliabilities row, sellingliabilities row with
           | Some b, Some s => Some (ExtV1 (mkLiabilities b s))
           | None, None => Some ExtV0
           | _, _ => None
           end in
  match a, e with
  | Some a, Some e =>
    Some (mkLedgerEntry (v_lastmodified row)
            (LE_TRUSTLINE (mkTrustLineEntry acc a (v_balance row) (v_limit row)
                                            (v_flags row) e)))
  | _, _ => None
  end.

(** [TrustFrame::loadTrustLine(accountID, asset, db, delta)]. *)
Definition loadTrustLine (acc : string) (a : Asset) (db : Database)
  (delta : option LedgerDelta)
  : option (option TrustFrame * Database * option LedgerDelta) :=
  match a with
  | ASSET_TYPE_NATIVE => None
  | _ =>
    if bool_decide (Some acc = getIssuer a) then
      match createIssuerFrame a with
      | Some f => Some (Some f, db, delta)
      | None => None
      end
    else
      let key := LK_TRUSTLINE acc a in
      let cached := if cachedEntryExists key db then getCachedEntry key db else None in
      match cached with
      | Some p =>
        match fromEntry p with
        | None => None
        | Some ret => Some (Some ret, db, (fun d => Delta.recordEntry d (toEntry ret)) <$> delta)
        end
      | None =>
        let '(issuerStr, assetStr) :=
          match a with
          | ASSET_TYPE_CREDIT_ALPHANUM4 c i => (i, c)
          | ASSET_TYPE_CREDIT_ALPHANUM12 c i => (i, c)
          | ASSET_TYPE_NATIVE => (""%string, ""%string)
          end in
        let k := (acc, issuerStr, assetStr) in
        let db := tick db in
        match trustlines db !! k with
        | Some row =>
          match lineOfRow k row ≫= fromEntry with
          | None => None
          | Some ret =>
            let db := putCachedEntry (getKey ret) (Some (toEntry ret)) db in
            Some (Some ret, db, (fun d => Delta.recordEntry d (toEntry ret)) <$> delta)
          end
        | None => Some (None, putCachedEntry key None db, delta)
        end
      end
  end.


(** The [TrustLineEntry] of a fresh [LedgerEntry le; le.data.type(TRUSTLINE)]:
    every field at its XDR default. *)
Definition defaultTrustLine : TrustLineEntry :=
  mkTrustLineEntry "" ASSET_TYPE_NATIVE 0 0 0 ExtV0.

(** The loop of [TrustFrame::loadLines(prep, trustProcessor)] over the
    statement's result set [rows], from the current contents [tl] of the
    single [LedgerEntry le] declared before the loop: the entries handed to
    [trustProcessor], in row order.  Each row overwrites the account, the
    asset, the limit, the balance, the flags and the last-modified
    sequence; the liabilities extension is set only when the row's
    liability columns are not NULL, and otherwise keeps what [le] held. *)
Fixpoint loadLinesFrom (tl : TrustLineEntry) (rows : list (keyType * valType))
  : option (list LedgerEntry) :=
  match rows with
  | [] => Some []
  | ((acc, iss, code), row) :: rest =>
    let a := if assettype row =? 0 then Some ASSET_TYPE_NATIVE
             else if assettype row =? 1 then Some (ASSET_TYPE_CREDIT_ALPHANUM4 code iss)
             else if assettype row =? 2 then Some (ASSET_TYPE_CREDIT_ALPHANUM12 code iss)
             else None in
    let e := match buyingliabilities row, sellingliabilities row with
             | Some b, Some s => Some (ExtV1 (mkLiabilities b s))
             | None, None => Some (ext tl)
             | _, _ => None
             end in
    match a, e with
    | Some a, Some e =>
      let tl := mkTrustLineEntry acc a (v_balance row) (v_limit row) (v_flags row) e in
      match loadLinesFrom tl rest with
      | Some es => Some (mkLedgerEntry (v_lastmodified row) (LE_TRUSTLINE tl) :: es)
      | None => None
      end
    | _, _ => None
    end
  end.

(** [TrustFrame::loadLines(prep, trustProcessor)]. *)
Definition loadLines (rows : list (keyType * valType)) : option (list LedgerEntry) :=
  loadLinesFrom defaultTrustLine rows.

(** [TrustFrame::loadLines(accountID, retLines, db)]: the frames appended
    to [retLines].  The query has no ORDER BY; its rows are taken in the
    table's iteration order. *)
Definition loadLinesOfAccount (acc : string) (db : Database)
  : option (list TrustFrame) * Database :=
  let rows := filter (fun kv : keyType * valType => kv.1.1.1 = acc)
                     (map_to_list (trustlines db)) in
  (loadLines rows ≫= mapM fromEntry, tick db).

(** [TrustFrame::countObjects(sess)]: the number of rows of [trustlines]. *)
Definition countObjects (db : Database) : nat * Database :=
  (size (trustlines db), tick db).

(** [TrustFrame::countObjects(sess, ledgers)] with [ledgers.first()] and
    [ledgers.last()] given as [first] and [last]. *)
Definition countObjectsInRange (db : Database) (first last : Z) : nat * Database :=
  (size (filter (fun kv : keyType * valType =>
                   ((first <=? v_lastmodified kv.2) && (v_lastmodified kv.2 <=? last))%bool = true)
                (trustlines db)), tick db).

(** The predicate given to [erase_if] on the entry cache by
    [deleteTrustLinesModifiedOnOrAfterLedger]: a non-null trust-line entry
    last modified at or after [oldestLedger]. *)
Definition trustLineModifiedOnOrAfter (oldestLedger : Z) (p : option LedgerEntry) : bool :=
  match p with
  | Some le =>
    match data le with
    | LE_TRUSTLINE _ => oldestLedger <=? lastModifiedLedgerSeq le
    | LE_DATA _ => false
    end
  | None => false
  end.

(** [TrustFrame::deleteTrustLinesModifiedOnOrAfterLedger(db, oldestLedger)]:
    the cache erase, then [DELETE FROM trustlines WHERE lastmodified >= :v1]. *)
Definition deleteTrustLinesModifiedOnOrAfterLedger (db : Database) (oldestLedger : Z)
  : Database :=
  let db := set_entryCache db
              (filter (fun kv : LedgerKey * option LedgerEntry =>
                         trustLineModifiedOnOrAfter oldestLedger kv.2 = false)
                      (entryCache db)) in
  tick (set_trustlines db
          (filter (fun kv : keyType * valType => (v_lastmodified kv.2 <? oldestLedger) = true)
                  (trustlines db))).

End TrustStore.

(* ------------------------------------------------------------------ *)
(** ** DataFrame storage operations (DataFrame.cpp) *)

Record DataFrame := mkDataFrame { mData : DataEntry; d_lastModified : Z }.

Module DataStore.

Definition getKey (df : DataFrame) : LedgerKey :=
  LK_DATA (d_accountID (mData df)) (dataName (mData df)).

Definition toEntry (df : DataFrame) : LedgerEntry :=
  mkLedgerEntry (d_lastModified df) (LE_DATA (mData df)).

Definition touch (delta : LedgerDelta) (df : DataFrame) : DataFrame :=
  mkDataFrame (mData df) (touch_seq delta (d_lastModified df)).

(** [DataFrame::exists(db, key)]: [key.data()] throws on a key of another
    type. *)
Definition exists_ (db : Database) (key : LedgerKey) : option (bool * Database) :=
  match key with
  | LK_DATA acc name => Some (bool_decide (is_Some (accountdata db !! (acc, name))), tick db)
  | LK_TRUSTLINE _ _ => None
  end.

(** [DataFrame::storeDelete(delta, db, key)]. *)
Definition storeDelete (delta : LedgerDelta) (db : Database) (key : LedgerKey)
  : option (LedgerDelta * Database) :=
  match key with
  | LK_DATA acc name =>
    let db := tick (set_accountdata db (delete (acc, name) (accountdata db))) in
    Some (Delta.deleteEntry delta key, db)
  | LK_TRUSTLINE _ _ => None
  end.

(** [UPDATE accountdata SET ... WHERE ...]: zero affected rows throws. *)
Definition sqlUpdate (k : string * string) (row : DataRow) (db : Database)
  : option (bool * Database) :=
  match accountdata db !! k with
  | Some _ => Some (false, tick (set_accountdata db (<[k := row]> (accountdata db))))
  | None => None
  end.

(** [INSERT INTO accountdata ...]: a primary-key conflict throws. *)
Definition sqlInsert (k : string * string) (row : DataRow) (db : Database)
  : option (bool * Database) :=
  match accountdata db !! k with
  | Some _ => None
  | None => Some (true, tick (set_accountdata db (<[k := row]> (accountdata db))))
  end.

(** [INSERT INTO table ... ON CONFLICT DO UPDATE ... RETURNING xmax] on
    [accountdata] or [accountdata_bulk].  Modelled from the spec (the storage
    layer reports whether a row was inserted or updated): the returned
    [xmax] is 0 for a freshly inserted row and the (non-zero) id of the
    updating transaction for an updated one.  Returns [xmax]. *)
Definition pgUpsert (bulk : bool) (k : string * string) (row : DataRow) (db : Database)
  : Z * Database :=
  let table := if bulk then accountdata_bulk db else accountdata db in
  let xmax := match table !! k with None => 0 | Some _ => 1 end in
  let table := <[k := row]> table in
  (xmax, tick (if bulk then set_accountdata_bulk db table else set_accountdata db table)).

(** [DataFrame::storeAddOrChange(delta, db, mode, bulk)]: the delta, the
    database and the frame after the call.  [pg = true || db.isPG()] is
    always true when [mode == 0]. *)
Definition storeAddOrChange (delta : LedgerDelta) (db : Database) (mode : Z) (bulk : bool)
  (df : DataFrame) : option (LedgerDelta * Database * DataFrame) :=
  let df := touch delta df in
  let k := (d_accountID (mData df), dataName (mData df)) in
  let row := mkDataRow (dataValue (mData df)) (d_lastModified df) in
  let pg := mode =? 0 in
  let res : option (bool * Database) :=
    if pg then
      let '(xmax, db) := pgUpsert bulk k row db in
      Some (xmax =? 0, db)
    else if mode =? 2 then sqlUpdate k row db
    else if mode =? 0 then
      match exists_ db (getKey df) with
      | Some (true, db) => sqlUpdate k row db
      | Some (false, db) => sqlInsert k row db
      | None => None
      end
    else sqlInsert k row db in
  match res with
  | None => None
  | Some (insert, db) =>
    Some (if insert then Delta.addEntry delta (toEntry df)
          else Delta.modEntry delta (toEntry df), db, df)
  end.

(** [DataFrame::loadData(accountID, dataName, db)]. *)
Definition loadData (acc name : string) (db : Database) : option DataFrame * Database :=
  (match accountdata db !! (acc, name) with
   | Some row => Some (mkDataFrame (mkDataEntry acc name (datavalue row)) (d_lastmodified row))
   | None => None
   end, tick db).


(** [DataFrame::countObjects(sess)]. *)
Definition countObjects (db : Database) : nat * Database :=
  (size (accountdata db), tick db).

(** [DataFrame::countObjects(sess, ledgers)] with [ledgers.first()] and
    [ledgers.last()] given as [first] and [last]. *)
Definition countObjectsInRange (db : Database) (first last : Z) : nat * Database :=
  (size (filter (fun kv : (string * string) * DataRow =>
                   ((first <=? d_lastmodified kv.2) && (d_lastmodified kv.2 <=? last))%bool = true)
                (accountdata db)), tick db).

(** The predicate given to [erase_if] by
    [deleteDataModifiedOnOrAfterLedger]: a non-null data entry last
    modified at or after [oldestLedger]. *)
Definition dataModifiedOnOrAfter (oldestLedger : Z) (p : option LedgerEntry) : bool :=
  match p with
  | Some le =>
    match data le with
    | LE_DATA _ => oldestLedger <=? lastModifiedLedgerSeq le
    | LE_TRUSTLINE _ => false
    end
  | None => false
  end.

(** [DataFrame::deleteDataModifiedOnOrAfterLedger(db, oldestLedger)]: the
    cache erase, then [DELETE FROM accountdata WHERE lastmodified >= :v1]. *)
Definition deleteDataModifiedOnOrAfterLedger (db : Database) (oldestLedger : Z) : Database :=
  let db := set_entryCache db
              (filter (fun kv : LedgerKey * option LedgerEntry =>
                         dataModifiedOnOrAfter oldestLedger kv.2 = false)
                      (entryCache db)) in
  tick (set_accountdata db
          (filter (fun kv : (string * string) * DataRow => (d_lastmodified kv.2 <? oldestLedger) = true)
                  (accountdata db))).

End DataStore.

(* ------------------------------------------------------------------ *)
(** ** BucketApplicator (BucketApplicator.cpp) *)

Section BucketApplicator.

(** The bucket's entries and the storage effect of applying one of them
    ([storeAddOrChange] of a live entry, [storeDelete] of a dead one); the
    chunking of [advance()] does not depend on either. *)
Variable BucketEntry : Type.
Variable applyEntry : Database -> BucketEntry -> Database.

(** The applicator: [mDb], [mBucketIter] as the entries not yet consumed,
    and the [size_t] counter [mSize]. *)
Record BucketApplicator := mkBucketApplicator {
  mDb : Database;
  mBucketIter : list BucketEntry;
  mSize : Z
}.

(** [BucketApplicator::operator bool]: the iterator is not exhausted. *)
Definition has_more (ba : BucketApplicator) : bool :=
  match mBucketIter ba with [] => false | _ :: _ => true end.

(** Modelled from the spec: BucketApplicator.h (not in the sources) declares
    [mSize]; a freshly constructed applicator has applied no entry, so the
    counter starts at 0. *)
Definition mkApplicator (db : Database) (bucket : list BucketEntry) : BucketApplicator :=
  mkBucketApplicator db bucket 0.

(** The [while (mBucketIter)] loop of [advance()]: apply, [++mBucketIter],
    then [if ((++mSize & 0xff) == 0xff) break;]. *)
Fixpoint advance_loop (db : Database) (it : list BucketEntry) (size : Z)
  : Database * list BucketEntry * Z :=
  match it with
  | [] => (db, [], size)
  | e :: rest =>
    let db := applyEntry db e in
    let size := (size + 1) mod 2 ^ 64 in
    if Z.land size 255 =? 255 then (db, rest, size)
    else advance_loop db rest size
  end.

(** [BucketApplicator::advance()]: its loop, which reads and writes the
    applicator's own [mDb] only.  The [accumulator acc(mDb)] block around
    the loop is added by [advance_with_accumulator]. *)
Definition advance (ba : BucketApplicator) : BucketApplicator :=
  let '(db, it, size) := advance_loop (mDb ba) (mBucketIter ba) (mSize ba) in
  mkBucketApplicator db it size.

(** [BucketApplicator::advance()] with its [accumulator acc(mDb)] block.
    The constructor of [accumulator] returns with a null [mDb] when the
    outer database is not PostgreSQL ([isPG] false), and its destructor then
    does nothing.  On PostgreSQL the destructor, run when the block ends
    after the loop, calls [EntryFrame::mergeAccumulated(mOuterDb, *mDb)],
    which is not in the sources: its effect on the outer database is the
    parameter [mergeAccumulated]. *)
Definition advance_with_accumulator (isPG : bool) (mergeAccumulated : Database -> Database)
  (ba : BucketApplicator) : BucketApplicator :=
  let ba' := advance ba in
  if isPG then mkBucketApplicator (mergeAccumulated (mDb ba')) (mBucketIter ba') (mSize ba')
  else ba'.

End BucketApplicator.

Arguments advance_loop {BucketEntry}.
Arguments has_more {BucketEntry}.
Arguments mkApplicator {BucketEntry}.
Arguments advance {BucketEntry}.
Arguments advance_with_accumulator {BucketEntry}.
Arguments mBucketIter {BucketEntry}.
Arguments mSize {BucketEntry}.

(* ================================================================== *)
(** * Properties *)

(** Case analysis on the integer comparisons left in a goal. *)
Ltac zcase :=
  repeat match goal with
  | |- context [Z.eqb ?a ?b] => destruct (Z.eqb_spec a b); simpl
  | |- context [Z.leb ?a ?b] => destruct (Z.leb_spec a b); simpl
  | |- context [Z.ltb ?a ?b] => destruct (Z.ltb_spec a b); simpl
  end; try lia; try congruence.

Module TrustLineFacts.
Import TrustLine.

(** The line of the spec's bound-enforcement example:
    [limit = 100, balance = 40], authorized, no liabilities. *)
Definition example_line : TrustFrame :=
  mkTrustFrame (mkTrustLineEntry "GA"%string (ASSET_TYPE_CREDIT_ALPHANUM4 "USD"%string "GB"%string)
                                 40 100 AUTHORIZED_FLAG ExtV0) 7 false.

Example addBalance_70_fails :
  addBalance example_line 70 10 = Some (false, example_line).
Proof. reflexivity. Qed.

Example addBalance_60_succeeds :
  option_map (fun r => (r.1, balance (mTrustLine r.2))) (addBalance example_line 60 10)
  = Some (true, 100).
Proof. reflexivity. Qed.

(** C1: [addBalance(delta)] succeeds without change for [delta == 0] or an
    issuer line, fails without change when unauthorized, fails without
    change when [balance + delta] leaves [[0, limit]] or, from protocol 10,
    falls below the selling liabilities or above [limit - buying
    liabilities]; otherwise it succeeds with [balance + delta]; and the
    balance is the only field it ever changes, and only on success. *)
Theorem addBalance_contract (tf : TrustFrame) (delta : Z) (v : LedgerVersion) :
  let tl := mTrustLine tf in
  let nb := balance tl + delta in
  ((mIsIssuer tf = true \/ delta = 0) ->
     addBalance tf delta v = Some (true, tf)) /\
  (mIsIssuer tf = false -> delta <> 0 -> isAuthorized tf = false ->
     addBalance tf delta v = Some (false, tf)) /\
  (mIsIssuer tf = false -> delta <> 0 -> isAuthorized tf = true ->
     (nb < 0 \/ limit tl < nb) ->
     addBalance tf delta v = Some (false, tf)) /\
  (mIsIssuer tf = false -> delta <> 0 -> isAuthorized tf = true ->
     0 <= nb <= limit tl -> 10 <= v ->
     (nb < sellingLiab tl \/ limit tl - buyingLiab tl < nb) ->
     addBalance tf delta v = Some (false, tf)) /\
  (mIsIssuer tf = false -> delta <> 0 -> isAuthorized tf = true ->
     0 <= nb <= limit tl ->
     (v < 10 \/ (sellingLiab tl <= nb /\ nb <= limit tl - buyingLiab tl)) ->
     addBalance tf delta v = Some (true, with_line tf (set_balance tl nb))) /\
  (exists r tf', addBalance tf delta v = Some (r, tf') /\
     (r = false -> tf' = tf) /\
     tf' = with_line tf (set_balance tl (balance (mTrustLine tf')))).
Proof.
  intros tl nb.
  assert (Hid : with_line tf (set_balance tl (balance tl)) = tf)
    by (destruct tf as [[] ? ?]; reflexivity).
  unfold addBalance, addBalance_util, getSellingLiabilities, getBuyingLiabilities.
  fold tl. fold nb.
  split; [|split; [|split; [|split; [|split]]]].
  - intros [-> | ->]; [done|]. rewrite Z.eqb_refl, orb_true_r. done.
  - intros -> Hd ->. apply Z.eqb_neq in Hd. rewrite Hd. done.
  - intros -> Hd -> Hr. apply Z.eqb_neq in Hd. rewrite Hd. simpl. zcase.
  - intros -> Hd -> Hr Hv Hl. apply Z.eqb_neq in Hd. rewrite Hd. simpl. zcase.
  - intros -> Hd -> Hr Hv. apply Z.eqb_neq in Hd. rewrite Hd. simpl. zcase.
  - destruct (mIsIssuer tf || (delta =? 0)); [eauto|].
    destruct (negb (isAuthorized tf)); [eauto|].
    zcase; eauto; (do 2 eexists; split; [reflexivity|]; split; [discriminate|done]).
Qed.

(** Witness of [addBalance_contract] on the spec's example line: adding 70
    fails and leaves the line unchanged, adding 60 succeeds with balance 100. *)
Lemma addBalance_contract_witness :
  addBalance example_line 70 10 = Some (false, example_line) /\
  addBalance example_line 60 10 =
    Some (true, with_line example_line (set_balance (mTrustLine example_line) 100)).
Proof.
  destruct (addBalance_contract example_line 70 10) as (_ & _ & H3 & _).
  destruct (addBalance_contract example_line 60 10) as (_ & _ & _ & _ & H5 & _).
  split.
  - apply H3; [reflexivity | discriminate | reflexivity | unfold example_line; simpl; lia].
  - apply H5; [reflexivity | discriminate | reflexivity | unfold example_line; simpl; lia | right; unfold example_line, sellingLiab, buyingLiab; simpl; lia].
Defined.

(** C6: from protocol 10 on (and with the asserted [balance >= 0] and
    [limit >= 0]), [addBuyingLiabilities] and [addSellingLiabilities]
    succeed without change for an issuer line or [delta == 0], fail without
    change when unauthorized, and otherwise succeed exactly when the new
    liability stays in [[0, limit - balance]] (buying) or [[0, balance]]
    (selling), storing it in a version-1 extension whose other liability is
    the old one (0 when the line had no extension); on failure the line is
    unchanged. *)
Theorem addLiabilities_contract (tf : TrustFrame) (delta : Z) (v : LedgerVersion)
  (Hv : 10 <= v) (Hb : 0 <= balance (mTrustLine tf)) (Hl : 0 <= limit (mTrustLine tf)) :
  let tl := mTrustLine tf in
  ((mIsIssuer tf = true \/ delta = 0) ->
     addBuyingLiabilities tf delta v = Some (true, tf) /\
     addSellingLiabilities tf delta v = Some (true, tf)) /\
  (mIsIssuer tf = false -> delta <> 0 -> isAuthorized tf = false ->
     addBuyingLiabilities tf delta v = Some (false, tf) /\
     addSellingLiabilities tf delta v = Some (false, tf)) /\
  (mIsIssuer tf = false -> delta <> 0 -> isAuthorized tf = true ->
     let nl := buyingLiab tl + delta in
     addBuyingLiabilities tf delta v =
       if (0 <=? nl) && (nl <=? limit tl - balance tl)
       then Some (true, with_line tf (set_ext tl (ExtV1 (mkLiabilities nl (sellingLiab tl)))))
       else Some (false, tf)) /\
  (mIsIssuer tf = false -> delta <> 0 -> isAuthorized tf = true ->
     let nl := sellingLiab tl + delta in
     addSellingLiabilities tf delta v =
       if (0 <=? nl) && (nl <=? balance tl)
       then Some (true, with_line tf (set_ext tl (ExtV1 (mkLiabilities (buyingLiab tl) nl))))
       else Some (false, tf)) /\
  (ext tl = ExtV0 -> mIsIssuer tf = false -> delta <> 0 ->
     (forall tf', addBuyingLiabilities tf delta v = Some (true, tf') ->
        ext (mTrustLine tf') = ExtV1 (mkLiabilities (0 + delta) 0)) /\
     (forall tf', addSellingLiabilities tf delta v = Some (true, tf') ->
        ext (mTrustLine tf') = ExtV1 (mkLiabilities 0 (0 + delta)))).
Proof.
  cbv zeta.
  unfold addBuyingLiabilities, addSellingLiabilities, addBalance_util, getBalance.
  assert (Hv' : (10 <=? v) = true) by (apply Z.leb_le; lia).
  assert (Hb' : (0 <=? balance (mTrustLine tf)) = true) by (apply Z.leb_le; lia).
  assert (Hl' : (0 <=? limit (mTrustLine tf)) = true) by (apply Z.leb_le; lia).
  rewrite Hv', Hb', Hl'; simpl.
  split; [|split; [|split; [|split]]].
  - intros [-> | ->]; [done|]. rewrite Z.eqb_refl, orb_true_r. done.
  - intros -> Hd ->. apply Z.eqb_neq in Hd. rewrite Hd. done.
  - intros -> Hd ->. apply Z.eqb_neq in Hd. rewrite Hd. simpl.
    unfold buyingLiab, sellingLiab, ext_v1.
    destruct (ext (mTrustLine tf)) as [|[b s]]; simpl; zcase.
  - intros -> Hd ->. apply Z.eqb_neq in Hd. rewrite Hd. simpl.
    unfold buyingLiab, sellingLiab, ext_v1.
    destruct (ext (mTrustLine tf)) as [|[b s]]; simpl; zcase.
  - intros He -> Hd. apply Z.eqb_neq in Hd. rewrite Hd. simpl.
    unfold ext_v1. rewrite He. split; intros tf' Hr.
    + destruct (negb (isAuthorized tf)); [congruence|].
      revert Hr; zcase; intros Hr; injection Hr as <-; reflexivity.
    + destruct (negb (isAuthorized tf)); [congruence|].
      revert Hr; zcase; intros Hr; injection Hr as <-; reflexivity.
Qed.


(** Witness of [addLiabilities_contract]: protocol 10, the example line
    (balance 40, limit 100, no extension) takes 30 of buying liabilities,
    stored in a fresh version-1 extension with zero selling liabilities. *)
Lemma addLiabilities_contract_witness :
  addBuyingLiabilities example_line 30 10 =
    Some (true, with_line example_line
                  (set_ext (mTrustLine example_line) (ExtV1 (mkLiabilities 30 0)))).
Proof.
  pose proof (addLiabilities_contract example_line 30 10 ltac:(lia)
                ltac:(unfold example_line; simpl; lia)
                ltac:(unfold example_line; simpl; lia)) as H.
  destruct H as (_ & _ & H3 & _).
  rewrite (H3 eq_refl ltac:(discriminate) eq_refl).
  reflexivity.
Defined.

(** C10: a non-issuer line whose AUTHORIZED flag is clear can receive
    nothing: [getMaxAmountReceive] is 0 whatever its balance, limit,
    liabilities and the protocol version. *)
Theorem getMaxAmountReceive_unauthorized (tf : TrustFrame) (v : LedgerVersion) :
  mIsIssuer tf = false -> isAuthorized tf = false ->
  getMaxAmountReceive tf v = Some 0.
Proof.
  intros Hi Ha. unfold getMaxAmountReceive. rewrite Hi, Ha. reflexivity.
Qed.

(** Witness of [getMaxAmountReceive_unauthorized]: the example line with its
    flag cleared, at protocol 10. *)
Lemma getMaxAmountReceive_unauthorized_witness :
  getMaxAmountReceive (setAuthorized example_line false) 10 = Some 0.
Proof.
  apply getMaxAmountReceive_unauthorized; reflexivity.
Defined.

End TrustLineFacts.

Module BucketFacts.

Definition emptyDb : Database := mkDatabase ∅ ∅ ∅ ∅ 0.

Section Chunks.
Context {BucketEntry : Type} (applyEntry : Database -> BucketEntry -> Database).

(** One [advance()] loop from counter [s] stops after
    [256 - (s + 1) mod 256] entries, or earlier when the bucket runs out. *)
Lemma advance_loop_spec (it : list BucketEntry) (db : Database) (s : Z) :
  0 <= s -> s + Z.of_nat (length it) < 2 ^ 64 ->
  let j := Z.to_nat (256 - (s + 1) mod 256) in
  (advance_loop applyEntry db it s).1.2 = drop j it /\
  (advance_loop applyEntry db it s).2 = s + Z.of_nat (Nat.min j (length it)).
Proof.
  revert db s. induction it as [|e rest IH]; intros db s Hs Hlen j.
  - simpl. rewrite drop_nil. split; [done | lia].
  - simpl in Hlen |- *.
    assert (Hm : (s + 1) mod 2 ^ 64 = s + 1) by (apply Z.mod_small; lia).
    rewrite Hm.
    change 255 with (Z.ones 8). rewrite Z.land_ones by lia.
    change (Z.ones 8) with 255. change (2 ^ 8) with 256.
    destruct (Z.eqb_spec ((s + 1) mod 256) 255) as [Heq|Hne].
    + subst j. rewrite Heq. simpl. split; [done | lia].
    + destruct (IH (applyEntry db e) (s + 1) ltac:(lia) ltac:(lia)) as [H1 H2].
      assert (Hn : 0 <= (s + 1) mod 256 < 256) by (apply Z.mod_pos_bound; lia).
      assert (Hs2 : (s + 1 + 1) mod 256 = (s + 1) mod 256 + 1).
      { rewrite <- Z.add_mod_idemp_l by lia. apply Z.mod_small. lia. }
      assert (Hj : j = S (Z.to_nat (256 - (s + 1 + 1) mod 256))).
      { subst j. rewrite Hs2. lia. }
      rewrite Hj. simpl. rewrite H1. split; [done|]. rewrite H2. lia.
Qed.

(** After [k] calls on a fresh applicator, the first [256 * k - 1] entries
    (or all of them) have been applied. *)
Lemma advance_iter (db : Database) (l : list BucketEntry) (k : nat) :
  Z.of_nat (length l) < 2 ^ 64 ->
  mBucketIter (Nat.iter k (advance applyEntry) (mkApplicator db l)) = drop (256 * k - 1) l /\
  mSize (Nat.iter k (advance applyEntry) (mkApplicator db l)) =
    Z.of_nat (Nat.min (256 * k - 1) (length l)).
Proof.
  intros Hlen. induction k as [|k IH].
  - simpl. split; [done | lia].
  - rewrite Nat.iter_succ.
    destruct (Nat.iter k (advance applyEntry) (mkApplicator db l)) as [db' it s].
    cbn [mBucketIter mSize] in IH. destruct IH as [Hit Hs].
    unfold advance. cbn [mBucketIter mSize mDb].
    destruct (advance_loop_spec it db' s) as [H1 H2].
    { lia. }
    { rewrite Hit, length_drop. lia. }
    destruct (advance_loop applyEntry db' it s) as [[db'' it'] s'].
    cbn [fst snd mBucketIter mSize] in H1, H2 |- *.
    rewrite H1, H2, Hit, drop_drop, length_drop.
    destruct (decide (length l <= 256 * k - 1)%nat) as [Hle|Hgt].
    + rewrite !drop_ge by lia. split; [done|]. rewrite Hs. lia.
    + assert (Hsv : s = Z.of_nat (256 * k - 1)) by lia.
      assert (Hj : Z.to_nat (256 - (s + 1) mod 256) = (256 * S k - 1 - (256 * k - 1))%nat).
      { rewrite Hsv. destruct k as [|k']; [reflexivity|].
        replace (Z.of_nat (256 * S k' - 1) + 1) with (Z.of_nat (S k') * 256) by lia.
        rewrite Z.mod_mul by lia. lia. }
      rewrite Hj. split.
      * f_equal. lia.
      * rewrite Hsv. lia.
Qed.

End Chunks.

(** A bucket of [n] entries on which applying an entry leaves storage as it
    is: the chunking does not look at the entries. *)
Definition unitBucket (n : nat) : list unit := repeat tt n.
Definition noEffect (db : Database) (_ : unit) : Database := db.

(** C2 (counterexample): the first [advance()] on a fresh applicator over a
    256-entry bucket applies only 255 entries and leaves one entry pending,
    so the bucket is not exhausted by a first 256-entry chunk. *)
Lemma advance_first_chunk_255 :
  mBucketIter (advance noEffect (mkApplicator emptyDb (unitBucket 256))) = [tt] /\
  mSize (advance noEffect (mkApplicator emptyDb (unitBucket 256))) = 255 /\
  has_more (advance noEffect (mkApplicator emptyDb (unitBucket 256))) = true.
Proof. vm_compute. auto. Qed.

(** C2 (as amended): after [k] calls to [advance()] on a fresh applicator,
    exactly the first [min (256 * k - 1) n] entries of an [n]-entry bucket
    have been applied (the first call applies up to 255, every later call up
    to 256); in particular a 1000-entry bucket still has work after 3 calls
    and is exhausted by the 4th. *)
Theorem advance_chunks {BucketEntry : Type} (applyEntry : Database -> BucketEntry -> Database)
  (db : Database) (l : list BucketEntry) :
  Z.of_nat (length l) < 2 ^ 64 ->
  (forall k : nat,
     mBucketIter (Nat.iter k (advance applyEntry) (mkApplicator db l)) = drop (256 * k - 1) l /\
     mSize (Nat.iter k (advance applyEntry) (mkApplicator db l)) =
       Z.of_nat (Nat.min (256 * k - 1) (length l)) /\
     (has_more (Nat.iter k (advance applyEntry) (mkApplicator db l)) = true <->
      (256 * k - 1 < length l)%nat)) /\
  (length l = 1000%nat ->
     has_more (Nat.iter 3 (advance applyEntry) (mkApplicator db l)) = true /\
     has_more (Nat.iter 4 (advance applyEntry) (mkApplicator db l)) = false).
Proof.
  intros Hlen.
  assert (Hk : forall k : nat,
     mBucketIter (Nat.iter k (advance applyEntry) (mkApplicator db l)) = drop (256 * k - 1) l /\
     mSize (Nat.iter k (advance applyEntry) (mkApplicator db l)) =
       Z.of_nat (Nat.min (256 * k - 1) (length l)) /\
     (has_more (Nat.iter k (advance applyEntry) (mkApplicator db l)) = true <->
      (256 * k - 1 < length l)%nat)).
  { intros k. destruct (advance_iter applyEntry db l k Hlen) as [H1 H2].
    split; [done|]. split; [done|].
    unfold has_more. rewrite H1.
    destruct (drop (256 * k - 1) l) eqn:Hd.
    - split; [discriminate|]. intros Hlt.
      apply (f_equal length) in Hd. rewrite length_drop in Hd. simpl in Hd. lia.
    - split; [|done]. intros _.
      apply (f_equal length) in Hd. rewrite length_drop in Hd. simpl in Hd. lia. }
  split; [exact Hk|]. intros H1000.
  destruct (Hk 3%nat) as (_ & _ & H3). destruct (Hk 4%nat) as (_ & _ & H4).
  split.
  - apply H3. rewrite H1000. lia.
  - destruct (has_more (Nat.iter 4 (advance applyEntry) (mkApplicator db l))); [|done]. destruct H4 as [H4 _]. specialize (H4 eq_refl). rewrite H1000 in H4. lia.
Qed.

(** Witness of [advance_chunks]: a 1000-entry bucket. *)
Lemma advance_chunks_witness :
  has_more (Nat.iter 3 (advance noEffect) (mkApplicator emptyDb (unitBucket 1000))) = true /\
  has_more (Nat.iter 4 (advance noEffect) (mkApplicator emptyDb (unitBucket 1000))) = false.
Proof.
  apply (advance_chunks noEffect emptyDb (unitBucket 1000)).
  - unfold unitBucket. rewrite repeat_length. lia.
  - unfold unitBucket. apply repeat_length.
Defined.

End BucketFacts.

Module AccumulatorFacts.
Import Accumulator.

(** One staged write: [Some v] through the upsert branch
    ([TrustFrame::storeAddOrChange] with an accumulator), [None] through the
    delete branch ([TrustFrame::storeDelete] with an accumulator). *)
Definition stage (items : trustlinesAccumulator) (w : keyType * option valType)
  : trustlinesAccumulator :=
  match w.2 with
  | Some v => stageUpsert w.1 v items
  | None => stageDelete w.1 items
  end.

Definition stageAll (ws : list (keyType * option valType)) (items : trustlinesAccumulator)
  : trustlinesAccumulator := fold_left stage ws items.

(** The last write staged for [k] in [ws], if any. *)
Fixpoint lastWrite (k : keyType) (ws : list (keyType * option valType))
  : option (option valType) :=
  match ws with
  | [] => None
  | (k', w) :: ws' =>
    match lastWrite k ws' with
    | Some r => Some r
    | None => if decide (k = k') then Some w else None
    end
  end.

Lemma stage_insert (items : trustlinesAccumulator) (k : keyType) (w : option valType) :
  stage items (k, w) = <[k := w]> items.
Proof. by destruct w. Qed.

Lemma stageAll_lookup (ws : list (keyType * option valType)) (items : trustlinesAccumulator)
  (k : keyType) :
  stageAll ws items !! k =
    match lastWrite k ws with Some w => Some w | None => items !! k end.
Proof.
  revert items. induction ws as [|[k' w] ws IH]; intros items; [done|].
  unfold stageAll in *. simpl. rewrite IH, stage_insert.
  destruct (lastWrite k ws); [done|].
  destruct (decide (k = k')) as [->|Hne].
  - by rewrite lookup_insert_eq.
  - by rewrite lookup_insert_ne.
Qed.

Lemma partitionItems_ups (rows : list (keyType * option valType)) k v :
  (k, v) ∈ (partitionItems rows).1 <-> (k, Some v) ∈ rows.
Proof.
  induction rows as [|[k' [v'|]] rows IH]; simpl.
  - split; intros H; inversion H.
  - destruct (partitionItems rows) as [ups dels]. simpl in *.
    rewrite !elem_of_cons, IH. split; intros [H|H]; try by right.
    + left. by injection H as -> ->.
    + left. by injection H as -> ->.
  - destruct (partitionItems rows) as [ups dels]. simpl in *.
    rewrite elem_of_cons, IH. split; [by right|].
    intros [H|H]; [discriminate|done].
Qed.

Lemma partitionItems_dels (rows : list (keyType * option valType)) k :
  k ∈ (partitionItems rows).2 <-> (k, None) ∈ rows.
Proof.
  induction rows as [|[k' [v'|]] rows IH]; simpl.
  - split; intros H; inversion H.
  - destruct (partitionItems rows) as [ups dels]. simpl in *.
    rewrite elem_of_cons, IH. split; [by right|].
    intros [H|H]; [discriminate|done].
  - destruct (partitionItems rows) as [ups dels]. simpl in *.
    rewrite !elem_of_cons, IH. split; intros [H|H]; try by right.
    + left. by subst.
    + left. by injection H as ->.
Qed.

Lemma partitionItems_NoDup (rows : list (keyType * option valType)) :
  NoDup rows.*1 -> NoDup (partitionItems rows).1.*1.
Proof.
  induction rows as [|[k' [v'|]] rows IH]; simpl; intros Hnd.
  - constructor.
  - apply NoDup_cons in Hnd as [Hk Hnd].
    pose proof (partitionItems_ups rows) as Hups.
    destruct (partitionItems rows) as [ups dels]. simpl in *.
    constructor; [|by apply IH].
    intros Hin. apply Hk. apply list_elem_of_fmap in Hin as [[k v] [-> Hin]].
    apply list_elem_of_fmap. exists (k, Some v). split; [done|]. by apply Hups.
  - apply NoDup_cons in Hnd as [_ Hnd].
    destruct (partitionItems rows) as [ups dels]. simpl in *. by apply IH.
Qed.

Lemma bulkUpsert_notin (ups : list (keyType * valType)) t k :
  k ∉ ups.*1 -> bulkUpsert ups t !! k = t !! k.
Proof.
  unfold bulkUpsert. revert t. induction ups as [|[k' v'] ups IH]; intros t Hk; [done|].
  simpl in *. rewrite elem_of_cons in Hk. rewrite IH by naive_solver.
  rewrite lookup_insert_ne; naive_solver.
Qed.

Lemma bulkUpsert_in (ups : list (keyType * valType)) t k v :
  NoDup ups.*1 -> (k, v) ∈ ups -> bulkUpsert ups t !! k = Some v.
Proof.
  revert t. induction ups as [|[k' v'] ups IH]; intros t Hnd Hin.
  - inversion Hin.
  - simpl in Hnd. apply NoDup_cons in Hnd as [Hk Hnd].
    apply elem_of_cons in Hin as [Heq|Hin].
    + injection Heq as Hk1 Hv1. subst k' v'. unfold bulkUpsert. simpl.
      fold (bulkUpsert ups (<[k := v]> t)).
      rewrite bulkUpsert_notin by done. by rewrite lookup_insert_eq.
    + unfold bulkUpsert. simpl. fold (bulkUpsert ups (<[k' := v']> t)). by apply IH.
Qed.

Lemma bulkDelete_notin (dels : list keyType) t k :
  k ∉ dels -> bulkDelete dels t !! k = t !! k.
Proof.
  unfold bulkDelete. revert t. induction dels as [|k' dels IH]; intros t Hk; [done|].
  simpl. rewrite elem_of_cons in Hk. rewrite IH by naive_solver.
  rewrite lookup_delete_ne; naive_solver.
Qed.

Lemma bulkDelete_in (dels : list keyType) t k :
  k ∈ dels -> bulkDelete dels t !! k = None.
Proof.
  unfold bulkDelete. intros Hk.
  assert (Hgen : forall (dels : list keyType) (t : gmap keyType valType),
            t !! k = None \/ k ∈ dels ->
            fold_left (fun t k => delete k t) dels t !! k = None).
  { clear. induction dels as [|k' dels IH]; intros t Hk.
    - destruct Hk as [Hk|Hk]; [done | inversion Hk].
    - simpl. apply IH. rewrite elem_of_cons in Hk.
      destruct (decide (k = k')) as [->|Hne].
      + left. apply lookup_delete_eq.
      + rewrite lookup_delete_ne by done. naive_solver. }
  by apply Hgen; right.
Qed.

(** The flush leaves the [trustlines] table as the bulk delete of the
    staged deletes applied after the bulk upsert of the staged rows. *)
Lemma flush_trustlines (items : trustlinesAccumulator) (db : Database) :
  trustlines (flush items db) =
    bulkDelete (partitionItems (map_to_list items)).2
      (bulkUpsert (partitionItems (map_to_list items)).1 (trustlines db)).
Proof.
  unfold flush. destruct (partitionItems (map_to_list items)) as [ups dels].
  by destruct ups, dels.
Qed.

Lemma flush_lookup (items : trustlinesAccumulator) (db : Database) (k : keyType) :
  trustlines (flush items db) !! k =
    match items !! k with
    | Some (Some v) => Some v
    | Some None => None
    | None => trustlines db !! k
    end.
Proof.
  rewrite flush_trustlines.
  pose proof (partitionItems_ups (map_to_list items)) as Hups.
  pose proof (partitionItems_dels (map_to_list items)) as Hdels.
  pose proof (partitionItems_NoDup (map_to_list items) (NoDup_fst_map_to_list items)) as Hnd.
  destruct (partitionItems (map_to_list items)) as [ups dels]. simpl in *.
  destruct (items !! k) as [[v|]|] eqn:Hk.
  - rewrite bulkDelete_notin.
    + apply bulkUpsert_in; [done|]. apply Hups. by apply elem_of_map_to_list.
    + intros Hin. apply Hdels, elem_of_map_to_list in Hin. congruence.
  - apply bulkDelete_in. apply Hdels. by apply elem_of_map_to_list.
  - rewrite bulkDelete_notin.
    + apply bulkUpsert_notin. intros Hin.
      apply list_elem_of_fmap in Hin as [[k' v] [Heq Hin]]. simpl in Heq. subst k'.
      apply Hups, elem_of_map_to_list in Hin. congruence.
    + intros Hin. apply Hdels, elem_of_map_to_list in Hin. congruence.
Qed.

(** C9: staging a second write for an already staged key replaces the
    staged value, and after the flush every key holds the last write staged
    for it (a delete leaving no row); keys never staged keep their row. *)
Theorem accumulator_last_write_wins :
  (forall (items : trustlinesAccumulator) (k : keyType) (w1 w2 : option valType),
     stage (stage items (k, w1)) (k, w2) = stage items (k, w2)) /\
  (forall (db : Database) (ws : list (keyType * option valType)) (k : keyType),
     trustlines (flush (stageAll ws ∅) db) !! k =
       match lastWrite k ws with
       | Some w => w
       | None => trustlines db !! k
       end).
Proof.
  split.
  - intros items k w1 w2. rewrite !stage_insert. apply insert_insert_eq.
  - intros db ws k. rewrite flush_lookup, stageAll_lookup.
    destruct (lastWrite k ws) as [[v|]|]; [done|done|].
    by rewrite lookup_empty.
Qed.

End AccumulatorFacts.

Module StoreFacts.
Import EntryCache.

(** Fixtures: a credit asset, a holder distinct from its issuer, and the
    keys of the holder's trust line and of one of its data entries. *)
Definition usd : Asset := ASSET_TYPE_CREDIT_ALPHANUM4 "USD" "GISSUER".
Definition holder : string := "GHOLDER".
Definition usdKey : LedgerKey := LK_TRUSTLINE holder usd.
Definition issuerKey : LedgerKey := LK_TRUSTLINE "GISSUER" usd.
Definition dataKey : LedgerKey := LK_DATA holder "name".
Definition startDelta : LedgerDelta := mkLedgerDelta 5 [].

Definition holderLine : TrustFrame :=
  mkTrustFrame (mkTrustLineEntry holder usd 10 100 AUTHORIZED_FLAG ExtV0) 3 false.

Definition oldDataEntry : LedgerEntry :=
  mkLedgerEntry 3 (LE_DATA (mkDataEntry holder "name" "old")).

(** Nothing stored; the cache marks the holder's line "known absent". *)
Definition knownAbsentDb : Database :=
  mkDatabase ∅ ∅ ∅ {[usdKey := None]} 0.

(** Nothing stored; the cache holds the holder's line. *)
Definition cachedLineDb : Database :=
  mkDatabase ∅ ∅ ∅ {[usdKey := Some (TrustStore.toEntry holderLine)]} 0.

(** The data entry is stored and cached. *)
Definition cachedDataDb : Database :=
  mkDatabase ∅ {[(holder, "name"%string) := mkDataRow "old" 3]} ∅
             {[dataKey := Some oldDataEntry]} 0.

(** Tactic: the outcome of [getKeyFields] on a trust-line key. *)
Ltac keyfields :=
  match goal with
  | |- context [String.eqb ?a ?b] => destruct (String.eqb_spec a b)
  | H : context [String.eqb ?a ?b] |- _ => destruct (String.eqb_spec a b)
  end.

(** Counterexample to C4: a "known absent" cache slot does not
    short-circuit [TrustFrame::exists]; the call still issues the storage
    probe (one more statement on the session). *)
Lemma exists_known_absent_queries :
  entryCache knownAbsentDb !! usdKey = Some None /\
  TrustStore.exists_ knownAbsentDb usdKey = Some (false, tick knownAbsentDb) /\
  queries (tick knownAbsentDb) = S (queries knownAbsentDb).
Proof. vm_compute. repeat split. Qed.

(** C4 (amended): [TrustFrame::exists] answers [true] from the cache,
    without a storage query, exactly when the cache holds an entry for the
    key; on a cache miss and on a "known absent" slot alike it issues the
    storage probe and answers whether the row exists (throwing, as
    [getKeyFields] does, for an issuer's own line).  [DataFrame::exists]
    never consults the cache: it always issues the probe, and its answer
    does not depend on the cache contents. *)
Theorem exists_cache_contract (db : Database) (key : LedgerKey) :
  (forall e, entryCache db !! key = Some (Some e) ->
     TrustStore.exists_ db key = Some (true, db)) /\
  ((entryCache db !! key = None \/ entryCache db !! key = Some None) ->
     TrustStore.exists_ db key =
       (fun k => (bool_decide (is_Some (trustlines db !! k)), tick db))
         <$> TrustStore.getKeyFields key) /\
  (forall acc name, key = LK_DATA acc name ->
     forall c, DataStore.exists_ (set_entryCache db c) key =
       Some (bool_decide (is_Some (accountdata db !! (acc, name))),
             tick (set_entryCache db c))).
Proof.
  split; [|split].
  - intros e He. unfold TrustStore.exists_, cachedEntryExists, getCachedEntry.
    rewrite He. reflexivity.
  - intros Hc. unfold TrustStore.exists_, cachedEntryExists, getCachedEntry.
    destruct Hc as [Hc|Hc]; rewrite Hc; simpl;
      destruct (TrustStore.getKeyFields key); reflexivity.
  - intros acc name -> c. reflexivity.
Qed.

(** The cache hit of C4 at a concrete state: no storage query. *)
Lemma exists_cache_contract_witness :
  TrustStore.exists_ cachedLineDb usdKey = Some (true, cachedLineDb).
Proof.
  destruct (exists_cache_contract cachedLineDb usdKey) as [H _].
  apply (H (TrustStore.toEntry holderLine)). reflexivity.
Defined.

(** C7: the issuer frame of a credit asset is the issuer's own line,
    authorized, with balance and limit [INT64_MAX] and no liabilities; it
    is built without a [Database] argument, so without storage access.
    [loadTrustLine] for the issuer returns it and leaves the database (its
    tables, cache and statement count) as it was; and [storeAddOrChange] on
    any issuer frame changes no table and executes no statement (it only
    drops the key's cache slot). *)
Theorem issuer_frame_contract (a : Asset) (iss : string) :
  TrustStore.getIssuer a = Some iss ->
  (exists f, TrustStore.createIssuerFrame a = Some f /\
     mIsIssuer f = true /\ TrustLine.isAuthorized f = true /\
     balance (mTrustLine f) = INT64_MAX /\ limit (mTrustLine f) = INT64_MAX /\
     TrustLine.buyingLiab (mTrustLine f) = 0 /\
     TrustLine.sellingLiab (mTrustLine f) = 0 /\
     accountID (mTrustLine f) = iss /\ asset (mTrustLine f) = a /\
     (forall db delta, TrustStore.loadTrustLine iss a db delta = Some (Some f, db, delta))) /\
  (forall delta db accums tf, mIsIssuer tf = true ->
     exists d' db', TrustStore.storeAddOrChange delta db accums tf = Some (d', db', accums, tf) /\
       trustlines db' = trustlines db /\ accountdata db' = accountdata db /\
       accountdata_bulk db' = accountdata_bulk db /\ queries db' = queries db).
Proof.
  intros Hi. split.
  - unfold TrustStore.createIssuerFrame. rewrite Hi.
    eexists; split; [reflexivity|].
    repeat split; try reflexivity.
    intros db delta. unfold TrustStore.loadTrustLine.
    destruct a as [|c i|c i]; [discriminate| |];
      (rewrite bool_decide_eq_true_2 by (rewrite Hi; reflexivity));
      unfold TrustStore.createIssuerFrame; rewrite Hi; reflexivity.
  - intros delta db accums tf Htf. unfold TrustStore.storeAddOrChange.
    rewrite Htf. do 2 eexists. split; [reflexivity|]. repeat split.
Qed.

(** C7 at the asset [USD:GISSUER]. *)
Lemma issuer_frame_contract_witness :
  TrustStore.getIssuer usd = Some "GISSUER"%string /\
  TrustStore.loadTrustLine "GISSUER" usd cachedLineDb None =
    Some (TrustStore.createIssuerFrame usd, cachedLineDb, None).
Proof.
  split; [reflexivity|].
  destruct (issuer_frame_contract usd "GISSUER" eq_refl) as [[f [Hf [_ [_ [_ [_ [_ [_ [_ [_ Hl]]]]]]]]]] _].
  rewrite Hf. apply Hl.
Defined.

(** Counterexample to C8: deleting the issuer's own trust line, which is
    never stored, is an error: [getKeyFields] throws. *)
Lemma storeDelete_issuer_line_throws :
  trustlines knownAbsentDb !! ("GISSUER", "GISSUER", "USD")%string = None /\
  TrustStore.storeDelete startDelta knownAbsentDb issuerKey None = None /\
  TrustStore.storeDelete startDelta knownAbsentDb issuerKey (Some ∅) = None.
Proof. vm_compute. repeat split. Qed.

(** C8 (amended): deleting a data entry, or a trust line other than an
    issuer's own line, succeeds whether or not its row exists and records
    the key as deleted; when no row exists the tables are left unchanged
    (one statement may still be executed).  With an accumulator the delete
    is only staged and the tables are unchanged in every case.  Deleting
    an issuer's own trust line throws in [getKeyFields], with or without an
    accumulator. *)
Theorem storeDelete_idempotent :
  (forall delta db acc name,
     exists db', DataStore.storeDelete delta db (LK_DATA acc name) =
                   Some (Delta.deleteEntry delta (LK_DATA acc name), db') /\
       records (Delta.deleteEntry delta (LK_DATA acc name)) =
         records delta ++ [Deleted (LK_DATA acc name)] /\
       (accountdata db !! (acc, name) = None -> accountdata db' = accountdata db) /\
       trustlines db' = trustlines db /\ accountdata_bulk db' = accountdata_bulk db) /\
  (forall delta db acc a k accums,
     TrustStore.getKeyFields (LK_TRUSTLINE acc a) = Some k ->
     exists db' accums', TrustStore.storeDelete delta db (LK_TRUSTLINE acc a) accums =
                   Some (Delta.entryDeleter delta (LK_TRUSTLINE acc a), db', accums') /\
       records (Delta.entryDeleter delta (LK_TRUSTLINE acc a)) =
         records delta ++ [Deleted (LK_TRUSTLINE acc a)] /\
       (trustlines db !! k = None -> trustlines db' = trustlines db) /\
       accountdata db' = accountdata db /\ accountdata_bulk db' = accountdata_bulk db) /\
  (forall delta db acc a accums,
     Some acc = TrustStore.getIssuer a ->
     TrustStore.storeDelete delta db (LK_TRUSTLINE acc a) accums = None).
Proof.
  split; [|split].
  - intros delta db acc name. eexists. split; [reflexivity|].
    repeat split. intros Hn. simpl. apply delete_id. exact Hn.
  - intros delta db acc a k accums Hk.
    unfold TrustStore.storeDelete. rewrite Hk.
    destruct accums as [items|].
    + do 2 eexists. split; [reflexivity|]. repeat split.
    + do 2 eexists. split; [reflexivity|]. repeat split.
      intros Hn. simpl. apply delete_id. exact Hn.
  - intros delta db acc a accums Hi. unfold TrustStore.storeDelete.
    destruct a as [|c i|c i]; cbn in Hi; [discriminate| |]; injection Hi as ->;
      cbn; rewrite String.eqb_refl; reflexivity.
Qed.

(** C8 on an absent data row and on an absent trust-line row. *)
Lemma storeDelete_idempotent_witness :
  (exists db', DataStore.storeDelete startDelta knownAbsentDb dataKey =
                 Some (Delta.deleteEntry startDelta dataKey, db') /\
               accountdata db' = accountdata knownAbsentDb) /\
  (exists db' a', TrustStore.storeDelete startDelta knownAbsentDb usdKey None =
                 Some (Delta.entryDeleter startDelta usdKey, db', a') /\
               trustlines db' = trustlines knownAbsentDb).
Proof.
  destruct storeDelete_idempotent as [Hd [Ht _]]. split.
  - destruct (Hd startDelta knownAbsentDb holder "name"%string) as [db' [H1 [_ [H2 _]]]].
    exists db'. split; [exact H1|]. apply H2. reflexivity.
  - destruct (Ht startDelta knownAbsentDb holder usd (holder, "GISSUER", "USD")%string None
                 eq_refl) as [db' [a' [H1 [_ [H2 _]]]]].
    exists db', a'. split; [exact H1|]. apply H2. reflexivity.
Defined.

(** Counterexample to C5: [DataFrame::storeDelete] does not flush the cache
    slot of its key; after the row is deleted the cache still holds the
    pre-write entry. *)
Lemma data_storeDelete_keeps_cache :
  exists d' db', DataStore.storeDelete startDelta cachedDataDb dataKey = Some (d', db') /\
    accountdata db' !! (holder, "name"%string) = None /\
    getCachedEntry dataKey db' = Some oldDataEntry.
Proof. do 2 eexists. split; [reflexivity|]. vm_compute. split; reflexivity. Qed.

(** A direct write of a non-issuer trust line with a credit asset is read
    back by [loadTrustLine]. *)
Lemma trust_write_then_load delta db tf d' db' tf' :
  mIsIssuer tf = false -> asset (mTrustLine tf) <> ASSET_TYPE_NATIVE ->
  TrustStore.storeAddOrChange delta db None tf = Some (d', db', None, tf') ->
  mTrustLine tf' = mTrustLine tf /\
  exists db'', TrustStore.loadTrustLine (accountID (mTrustLine tf)) (asset (mTrustLine tf)) db' None
    = Some (Some (mkTrustFrame (mTrustLine tf) (lastModified tf') false), db'', None).
Proof.
  destruct tf as [[acc a b l f e] lm isu]; cbn [mIsIssuer mTrustLine asset accountID].
  intros -> Ha H. unfold TrustStore.storeAddOrChange in H. cbn in H.
  destruct a as [|c i|c i]; [contradiction| |];
    cbn in H; destruct (String.eqb_spec acc i) as [Heq|Hne]; try discriminate;
    injection H as <- <- <-; (split; [reflexivity|]);
    unfold TrustStore.loadTrustLine;
    (rewrite bool_decide_eq_false_2 by (cbn; congruence));
    unfold cachedEntryExists, getCachedEntry;
    cbn [entryCache tick set_trustlines flushCachedEntry set_entryCache TrustStore.getKey
         mTrustLine accountID asset trustlines];
    rewrite lookup_delete_eq; cbn; rewrite lookup_insert_eq; cbn;
    destruct e as [|[bl sl]]; eexists; reflexivity.
Qed.

(** A direct delete of a trust line with a credit asset is seen by
    [loadTrustLine]. *)
Lemma trust_delete_then_load delta db acc a d' db' :
  a <> ASSET_TYPE_NATIVE ->
  TrustStore.storeDelete delta db (LK_TRUSTLINE acc a) None = Some (d', db', None) ->
  exists db'', TrustStore.loadTrustLine acc a db' None = Some (None, db'', None).
Proof.
  intros Ha H. unfold TrustStore.storeDelete in H. cbn in H.
  destruct a as [|c i|c i]; [contradiction| |];
    destruct (String.eqb_spec acc i) as [Heq|Hne]; try discriminate;
    injection H as <- <-;
    unfold TrustStore.loadTrustLine;
    (rewrite bool_decide_eq_false_2 by (cbn; congruence));
    unfold cachedEntryExists, getCachedEntry;
    cbn [entryCache tick set_trustlines flushCachedEntry set_entryCache trustlines];
    rewrite lookup_delete_eq; cbn; rewrite lookup_delete_eq; eexists; reflexivity.
Qed.

(** C5 (amended): the trust-line writes flush the cache slot of their key
    (every branch: issuer frame, accumulator, direct write, delete), so
    after a direct trust-line write [loadTrustLine] returns the written line
    and after a direct delete it finds nothing.  The data-entry writes never
    touch the cache, but the data-entry reads ([loadData], [exists]) never
    consult it, so they too never return a pre-write cached value. *)
Theorem write_cache_coherence :
  (forall delta db accums tf d' db' a' tf',
     TrustStore.storeAddOrChange delta db accums tf = Some (d', db', a', tf') ->
     entryCache db' = delete (TrustStore.getKey tf) (entryCache db)) /\
  (forall delta db key accums d' db' a',
     TrustStore.storeDelete delta db key accums = Some (d', db', a') ->
     entryCache db' = delete key (entryCache db)) /\
  (forall delta db tf d' db' tf',
     mIsIssuer tf = false -> asset (mTrustLine tf) <> ASSET_TYPE_NATIVE ->
     TrustStore.storeAddOrChange delta db None tf = Some (d', db', None, tf') ->
     exists db'', TrustStore.loadTrustLine (accountID (mTrustLine tf)) (asset (mTrustLine tf)) db' None
       = Some (Some (mkTrustFrame (mTrustLine tf') (lastModified tf') false), db'', None)) /\
  (forall delta db acc a d' db',
     a <> ASSET_TYPE_NATIVE ->
     TrustStore.storeDelete delta db (LK_TRUSTLINE acc a) None = Some (d', db', None) ->
     exists db'', TrustStore.loadTrustLine acc a db' None = Some (None, db'', None)) /\
  (forall delta db mode bulk df d' db' df',
     DataStore.storeAddOrChange delta db mode bulk df = Some (d', db', df') ->
     entryCache db' = entryCache db) /\
  (forall delta db key d' db',
     DataStore.storeDelete delta db key = Some (d', db') -> entryCache db' = entryCache db) /\
  (forall acc name db c,
     (DataStore.loadData acc name (set_entryCache db c)).1 = (DataStore.loadData acc name db).1) /\
  (forall key db c,
     option_map fst (DataStore.exists_ (set_entryCache db c) key) =
     option_map fst (DataStore.exists_ db key)).
Proof.
  split; [|split; [|split; [|split; [|split; [|split; [|split]]]]]].
  - intros delta db accums tf d' db' a' tf' H. unfold TrustStore.storeAddOrChange in H.
    destruct (mIsIssuer tf).
    + injection H as _ <- _ _. reflexivity.
    + destruct (TrustStore.getKeyFields (TrustStore.getKey tf)); [|discriminate].
      destruct accums; injection H as _ <- _ _; reflexivity.
  - intros delta db key accums d' db' a' H. unfold TrustStore.storeDelete in H.
    destruct (TrustStore.getKeyFields key); [|discriminate].
    destruct accums; injection H as _ <- _; reflexivity.
  - intros delta db tf d' db' tf' Hi Ha H.
    destruct (trust_write_then_load delta db tf d' db' tf' Hi Ha H) as [-> Hl].
    exact Hl.
  - intros delta db acc a d' db' Ha H. exact (trust_delete_then_load delta db acc a d' db' Ha H).
  - intros delta db mode bulk df d' db' df' H. unfold DataStore.storeAddOrChange in H.
    unfold DataStore.pgUpsert, DataStore.sqlUpdate, DataStore.sqlInsert, DataStore.exists_ in H.
    cbn in H.
    repeat match goal with
    | H : context [Z.eqb ?a ?b] |- _ => destruct (Z.eqb a b)
    | H : context [match ?t !! ?k with _ => _ end] |- _ => destruct (t !! k)
    | H : context [if ?b then _ else _] |- _ => destruct b
    end; try discriminate; injection H as _ <- _; reflexivity.
  - intros delta db [acc a|acc name] d' db' H; [discriminate|].
    injection H as _ <-. reflexivity.
  - reflexivity.
  - intros [acc a|acc name] db c; reflexivity.
Qed.

(** C5 at the holder's line: written directly, then read back. *)
Lemma write_cache_coherence_witness :
  exists d' db' tf' db'',
    TrustStore.storeAddOrChange startDelta cachedLineDb None holderLine = Some (d', db', None, tf') /\
    TrustStore.loadTrustLine holder usd db' None =
      Some (Some (mkTrustFrame (mTrustLine tf') (lastModified tf') false), db'', None).
Proof.
  destruct write_cache_coherence as [_ [_ [Hw _]]].
  do 3 eexists.
  match goal with |- exists _, ?s = Some (?d, ?b, None, ?t) /\ _ =>
    assert (Hs : s = Some (d, b, None, t)) by reflexivity end.
  destruct (Hw startDelta cachedLineDb holderLine _ _ _ eq_refl
              ltac:(discriminate) Hs) as [db'' Hl].
  exists db''. split; [exact Hs | exact Hl].
Defined.

(** [DataFrame::storeAddOrChange] in the upsert mode (mode 0): the row is
    written to the table [bulk] selects, and the delta records the entry as
    added when that table had no row for the key, as modified when it had
    one. *)
Lemma data_upsert_records delta db bulk df d' db' df' :
  DataStore.storeAddOrChange delta db 0 bulk df = Some (d', db', df') ->
  let k := (d_accountID (mData df), dataName (mData df)) in
  let table := fun db => if bulk then accountdata_bulk db else accountdata db in
  table db' !! k = Some (mkDataRow (dataValue (mData df)) (d_lastModified df')) /\
  ((table db !! k = None /\ d' = Delta.addEntry delta (DataStore.toEntry df')) \/
   (is_Some (table db !! k) /\ d' = Delta.modEntry delta (DataStore.toEntry df'))).
Proof.
  intros H k table. subst k table.
  unfold DataStore.storeAddOrChange, DataStore.pgUpsert in H. cbn in H.
  destruct bulk;
    [destruct (accountdata_bulk db !! (d_accountID (mData df), dataName (mData df))) as [r|] eqn:E
    |destruct (accountdata db !! (d_accountID (mData df), dataName (mData df))) as [r|] eqn:E];
    cbn in H; rewrite ?E in H; cbn in H; injection H as <- <- <-;
    cbn [accountdata_bulk accountdata tick set_accountdata set_accountdata_bulk];
    rewrite lookup_insert_eq; (split; [reflexivity|]);
    first [left; split; reflexivity | right; split; [eexists; reflexivity | reflexivity]].
Qed.
End StoreFacts.

Module ExtraFacts.
Import TrustLine EntryCache.

(** The bounds the trust-line mutators keep: balance within [[0, limit]],
    and from protocol version 10 on, non-negative liabilities with the
    selling liabilities covered by the balance and the buying liabilities
    by the room left under the limit. *)
Definition liabilitiesOk (tf : TrustFrame) (v : LedgerVersion) : Prop :=
  let tl := mTrustLine tf in
  0 <= balance tl /\ balance tl <= limit tl /\
  (10 <= v -> 0 <= buyingLiab tl /\ 0 <= sellingLiab tl /\
              sellingLiab tl <= balance tl /\ balance tl + buyingLiab tl <= limit tl).

Ltac unfold_line :=
  unfold addBalance, addBuyingLiabilities, addSellingLiabilities,
    getMaxAmountReceive, getAvailableBalance, getMinimumLimit,
    getSellingLiabilities, getBuyingLiabilities, addBalance_util, getBalance in *.

(** For a non-issuer line within its bounds, receiving [d > 0] succeeds
    exactly when [d] is at most [getMaxAmountReceive] (0 for an
    unauthorized line). *)
Theorem addBalance_receive_bound (tf : TrustFrame) (d : Z) (v : LedgerVersion) :
  mIsIssuer tf = false -> 0 < d -> liabilitiesOk tf v ->
  exists m, getMaxAmountReceive tf v = Some m /\
    ((exists tf', addBalance tf d v = Some (true, tf')) <-> d <= m).
Proof.
  destruct tf as [[acc a b l f e] lm iss]. unfold liabilitiesOk.
  cbn [mIsIssuer mTrustLine balance limit]. intros -> Hd [Hb0 [Hbl Hv]].
  unfold_line. cbn [mIsIssuer mTrustLine balance limit orb].
  destruct (isAuthorized _) eqn:Ha; cbn [negb];
    destruct (Z.leb_spec 10 v) as [H10|H10];
    [destruct (Hv H10) as [Hbu [Hse [Hsb Hbb]]]| | |];
    destruct e as [|[bu se]]; cbn in *;
    (eexists; split; [reflexivity|]);
    zcase; split; intros Hs; try (destruct Hs; discriminate); try lia; eauto.
Qed.


(** For an authorized non-issuer line within its bounds, sending [d > 0]
    ([addBalance(-d)]) succeeds exactly when [d] is at most
    [getAvailableBalance]. *)
Theorem addBalance_spend_bound (tf : TrustFrame) (d : Z) (v : LedgerVersion) :
  mIsIssuer tf = false -> isAuthorized tf = true -> 0 < d -> liabilitiesOk tf v ->
  exists ab, getAvailableBalance tf v = Some ab /\
    ((exists tf', addBalance tf (- d) v = Some (true, tf')) <-> d <= ab).
Proof.
  destruct tf as [[acc a b l f e] lm iss]. unfold liabilitiesOk.
  cbn [mIsIssuer mTrustLine balance limit]. intros -> Ha Hd [Hb0 [Hbl Hv]].
  unfold_line. cbn [mIsIssuer mTrustLine balance limit orb]. rewrite Ha. cbn [negb].
  destruct (Z.leb_spec 10 v) as [H10|H10];
    [destruct (Hv H10) as [Hbu [Hse [Hsb Hbb]]]|];
    destruct e as [|[bu se]]; cbn in *;
    (eexists; split; [reflexivity|]);
    zcase; split; intros Hs; try (destruct Hs; discriminate); try lia; eauto.
Qed.

(** Case analysis on the comparisons and the authorization test left in
    a hypothesis. *)
Ltac hcase H :=
  repeat match type of H with
  | context [Z.eqb ?a ?b] => destruct (Z.eqb_spec a b); cbn in H
  | context [Z.leb ?a ?b] => destruct (Z.leb_spec a b); cbn in H
  | context [Z.ltb ?a ?b] => destruct (Z.ltb_spec a b); cbn in H
  | context [isAuthorized ?t] => destruct (isAuthorized t); cbn in H
  end.

(** The mutators keep a line within its bounds: [addBalance] (every
    protocol version), [addBuyingLiabilities], [addSellingLiabilities] and
    [setAuthorized], whatever they return. *)
Theorem liabilitiesOk_preserved (tf : TrustFrame) (v : LedgerVersion) (d : Z) :
  liabilitiesOk tf v ->
  (forall r tf', addBalance tf d v = Some (r, tf') -> liabilitiesOk tf' v) /\
  (forall r tf', addBuyingLiabilities tf d v = Some (r, tf') -> liabilitiesOk tf' v) /\
  (forall r tf', addSellingLiabilities tf d v = Some (r, tf') -> liabilitiesOk tf' v) /\
  (forall au, liabilitiesOk (setAuthorized tf au) v).
Proof.
  destruct tf as [[acc a b l f e] lm iss]. unfold liabilitiesOk.
  cbn [mIsIssuer mTrustLine balance limit]. intros [Hb0 [Hbl Hv]].
  split; [|split; [|split]]; [intros r tf' H; unfold_line; destruct iss; destruct e as [|[bu se]];
    cbn in H; hcase H; try discriminate; injection H as <- <-; cbn in *; repeat split; intuition lia ..|].
  intros au. cbn. intuition.
Qed.

(** [setAuthorized(b)] makes [isAuthorized] return [b] and changes no
    other flag bit and no other field. *)
Theorem setAuthorized_flags (tf : TrustFrame) (au : bool) :
  isAuthorized (setAuthorized tf au) = au /\
  (forall n, 0 < n ->
     Z.testbit (flags (mTrustLine (setAuthorized tf au))) n = Z.testbit (flags (mTrustLine tf)) n) /\
  set_flags (mTrustLine (setAuthorized tf au)) (flags (mTrustLine tf)) = mTrustLine tf /\
  lastModified (setAuthorized tf au) = lastModified tf /\
  mIsIssuer (setAuthorized tf au) = mIsIssuer tf.
Proof.
  destruct tf as [[acc a b l f e] lm iss].
  unfold setAuthorized, isAuthorized, with_line, set_flags, AUTHORIZED_FLAG.
  cbn [mTrustLine flags lastModified mIsIssuer accountID asset balance limit ext].
  split; [|split; [|repeat split]].
  - change 1 with (Z.ones 1). rewrite Z.land_ones by lia. change (2 ^ 1) with 2.
    set (x := if au then _ else _).
    assert (Hx : Z.testbit x 0 = au).
    { subst x. destruct au.
      - rewrite Z.lor_spec. apply orb_true_r.
      - rewrite Z.land_spec, Z.lnot_spec by lia. cbn. apply andb_false_r. }
    rewrite Z.bit0_eqb in Hx.
    assert (Hm : 0 <= x mod 2 < 2) by (apply Z.mod_pos_bound; lia).
    destruct (Z.eqb_spec (x mod 2) 1), (Z.eqb_spec (x mod 2) 0); subst au; cbn; lia || reflexivity.
  - intros n Hn. destruct au.
    + rewrite Z.lor_spec. change 1 with (Z.ones 1).
      rewrite Z.testbit_ones_nonneg by lia. destruct (Z.ltb_spec n 1); [lia|].
      apply orb_false_r.
    + rewrite Z.land_spec, Z.lnot_spec by lia. change 1 with (Z.ones 1).
      rewrite Z.testbit_ones_nonneg by lia. destruct (Z.ltb_spec n 1); [lia|].
      apply andb_true_r.
Qed.

(** A successful liability update of [d] is undone by the update of [-d]:
    it succeeds and restores both liabilities; the balance, limit and flags
    are never changed. *)
Theorem addLiabilities_undo (tf : TrustFrame) (d : Z) (v : LedgerVersion) :
  liabilitiesOk tf v ->
  (forall tf1, addBuyingLiabilities tf d v = Some (true, tf1) ->
     exists tf2, addBuyingLiabilities tf1 (- d) v = Some (true, tf2) /\
       buyingLiab (mTrustLine tf2) = buyingLiab (mTrustLine tf) /\
       sellingLiab (mTrustLine tf2) = sellingLiab (mTrustLine tf) /\
       set_ext (mTrustLine tf2) (ext (mTrustLine tf)) = mTrustLine tf) /\
  (forall tf1, addSellingLiabilities tf d v = Some (true, tf1) ->
     exists tf2, addSellingLiabilities tf1 (- d) v = Some (true, tf2) /\
       buyingLiab (mTrustLine tf2) = buyingLiab (mTrustLine tf) /\
       sellingLiab (mTrustLine tf2) = sellingLiab (mTrustLine tf) /\
       set_ext (mTrustLine tf2) (ext (mTrustLine tf)) = mTrustLine tf).
Proof.
  destruct tf as [[acc a b l f e] lm iss]. unfold liabilitiesOk.
  cbn [mIsIssuer mTrustLine balance limit]. intros [Hb0 [Hbl Hv]].
  split; intros tf1 H; unfold_line; unfold isAuthorized in *;
    destruct iss; destruct e as [|[bu se]];
    cbn in H; hcase H; try discriminate; injection H as <-;
    (try destruct (Hv ltac:(lia)) as [? [? [? ?]]]); cbn in *; zcase;
    eexists; (split; [reflexivity|]); cbn; repeat split; lia.
Qed.


(** The line [balance 40, limit 100], authorized, no liabilities, is
    within its bounds at protocol version 10. *)
Lemma example_line_ok : liabilitiesOk TrustLineFacts.example_line 10.
Proof. unfold liabilitiesOk, TrustLineFacts.example_line. cbn. intuition lia. Qed.

Lemma addBalance_receive_bound_witness :
  exists m, getMaxAmountReceive TrustLineFacts.example_line 10 = Some m /\
    ((exists tf', addBalance TrustLineFacts.example_line 60 10 = Some (true, tf')) <-> 60 <= m).
Proof.
  apply addBalance_receive_bound; [reflexivity | lia | exact example_line_ok].
Defined.

Lemma addBalance_spend_bound_witness :
  exists ab, getAvailableBalance TrustLineFacts.example_line 10 = Some ab /\
    ((exists tf', addBalance TrustLineFacts.example_line (- 30) 10 = Some (true, tf')) <-> 30 <= ab).
Proof.
  apply (addBalance_spend_bound TrustLineFacts.example_line 30 10); [reflexivity | reflexivity | lia | exact example_line_ok].
Defined.

Lemma liabilitiesOk_preserved_witness :
  exists r tf', addBuyingLiabilities TrustLineFacts.example_line 30 10 = Some (r, tf') /\
    liabilitiesOk tf' 10.
Proof.
  do 2 eexists. split; [reflexivity|].
  destruct (liabilitiesOk_preserved TrustLineFacts.example_line 10 30 example_line_ok)
    as [_ [Hb _]].
  eapply Hb. reflexivity.
Defined.

Lemma setAuthorized_flags_witness :
  isAuthorized (setAuthorized TrustLineFacts.example_line false) = false /\
  Z.testbit (flags (mTrustLine (setAuthorized TrustLineFacts.example_line false))) 1 =
    Z.testbit (flags (mTrustLine TrustLineFacts.example_line)) 1.
Proof.
  destruct (setAuthorized_flags TrustLineFacts.example_line false) as [H1 [H2 _]].
  split; [exact H1 | apply H2; lia].
Defined.

Lemma addLiabilities_undo_witness :
  exists tf1 tf2, addBuyingLiabilities TrustLineFacts.example_line 30 10 = Some (true, tf1) /\
    addBuyingLiabilities tf1 (- 30) 10 = Some (true, tf2) /\
    buyingLiab (mTrustLine tf2) = 0.
Proof.
  destruct (addLiabilities_undo TrustLineFacts.example_line 30 10 example_line_ok) as [Hb _].
  eexists. assert (H1 : addBuyingLiabilities TrustLineFacts.example_line 30 10 = Some (true, _))
    by reflexivity.
  destruct (Hb _ H1) as [tf2 [H2 [H3 _]]].
  exists tf2. split; [exact H1|]. split; [exact H2|]. rewrite H3. reflexivity.
Defined.


(** A row of the result set whose liability columns are both NULL. *)
Definition nullLiab (kv : keyType * valType) : Prop :=
  buyingliabilities kv.2 = None /\ sellingliabilities kv.2 = None.

(** One step of the [loadLines] loop. *)
Lemma loadLinesFrom_cons (tl : TrustLineEntry) (k : keyType) (r : valType)
  (rest : list (keyType * valType)) (es : list LedgerEntry) :
  TrustStore.loadLinesFrom tl ((k, r) :: rest) = Some es ->
  exists tl' es', es = mkLedgerEntry (v_lastmodified r) (LE_TRUSTLINE tl') :: es' /\
    TrustStore.loadLinesFrom tl' rest = Some es' /\
    accountID tl' = k.1.1 /\ balance tl' = v_balance r /\ limit tl' = v_limit r /\
    flags tl' = v_flags r /\
    (forall b s, buyingliabilities r = Some b -> sellingliabilities r = Some s ->
       ext tl' = ExtV1 (mkLiabilities b s)) /\
    (nullLiab (k, r) -> ext tl' = ext tl) /\
    asset tl' = (if assettype r =? 0 then ASSET_TYPE_NATIVE
                 else if assettype r =? 1 then ASSET_TYPE_CREDIT_ALPHANUM4 k.2 k.1.2
                 else ASSET_TYPE_CREDIT_ALPHANUM12 k.2 k.1.2) /\
    (nullLiab (k, r) ->
       TrustStore.lineOfRow k r = Some (mkLedgerEntry (v_lastmodified r) (LE_TRUSTLINE (set_ext tl' ExtV0)))).
Proof.
  destruct k as [[acc iss] code]. unfold nullLiab. cbn [fst snd].
  intros H. cbn [TrustStore.loadLinesFrom] in H. unfold TrustStore.lineOfRow.
  destruct (assettype r =? 0); [|destruct (assettype r =? 1); [|destruct (assettype r =? 2)]];
    destruct (buyingliabilities r), (sellingliabilities r); try discriminate;
    destruct (TrustStore.loadLinesFrom _ rest) eqn:Er; try discriminate; injection H as <-;
    eexists _, _; (split; [reflexivity|]); (split; [eassumption|]); cbn;
    repeat split; intros; simplify_eq; try naive_solver.
Qed.

(** Running the loop over a prefix of the result set. *)
Lemma loadLinesFrom_app (tl : TrustLineEntry) (pre rest : list (keyType * valType))
  (es : list LedgerEntry) :
  TrustStore.loadLinesFrom tl (pre ++ rest) = Some es ->
  exists tl' es2, TrustStore.loadLinesFrom tl' rest = Some es2 /\
    drop (length pre) es = es2 /\ (Forall nullLiab pre -> ext tl' = ext tl).
Proof.
  revert tl es. induction pre as [|[k r] pre IH]; intros tl es H.
  - exists tl, es. rewrite drop_0. auto.
  - cbn [app] in H.
    destruct (loadLinesFrom_cons _ _ _ _ _ H) as [tl1 [es1 [-> [H1 [_ [_ [_ [_ [_ [Hn _]]]]]]]]]].
    destruct (IH _ _ H1) as [tl' [es2 [H2 [H3 H4]]]].
    exists tl', es2. cbn [length drop]. split; [done|]. split; [done|].
    intros HF. inversion HF as [|x y Hx Hy]; subst. rewrite H4 by done. apply Hn. exact Hx.
Qed.

(** [loadLines] reuses one [LedgerEntry] for all rows: a row whose
    liability columns are NULL is returned with the liabilities of the
    nearest preceding row whose columns are not NULL, and with no
    liabilities (extension version 0) only when no preceding row has
    them.  Its other fields, the asset included, come from the row itself:
    it is the row's own decoding (as in [loadTrustLine]) up to the
    liabilities. *)
Theorem loadLines_liabilities_carry :
  (forall (pre mid post : list (keyType * valType)) (k' k : keyType) (r' r : valType)
          (b s : Z) (es : list LedgerEntry),
     buyingliabilities r' = Some b -> sellingliabilities r' = Some s ->
     Forall nullLiab mid -> nullLiab (k, r) ->
     TrustStore.loadLines (pre ++ (k', r') :: mid ++ (k, r) :: post) = Some es ->
     exists tl, es !! (length pre + S (length mid))%nat =
                  Some (mkLedgerEntry (v_lastmodified r) (LE_TRUSTLINE tl)) /\
       ext tl = ExtV1 (mkLiabilities b s) /\
       accountID tl = k.1.1 /\ balance tl = v_balance r /\ limit tl = v_limit r /\
       flags tl = v_flags r /\
       asset tl = (if assettype r =? 0 then ASSET_TYPE_NATIVE
                   else if assettype r =? 1 then ASSET_TYPE_CREDIT_ALPHANUM4 k.2 k.1.2
                   else ASSET_TYPE_CREDIT_ALPHANUM12 k.2 k.1.2) /\
       TrustStore.lineOfRow k r =
         Some (mkLedgerEntry (v_lastmodified r) (LE_TRUSTLINE (set_ext tl ExtV0)))) /\
  (forall (pre post : list (keyType * valType)) (k : keyType) (r : valType)
          (es : list LedgerEntry),
     Forall nullLiab pre -> nullLiab (k, r) ->
     TrustStore.loadLines (pre ++ (k, r) :: post) = Some es ->
     exists tl, es !! length pre = Some (mkLedgerEntry (v_lastmodified r) (LE_TRUSTLINE tl)) /\
       ext tl = ExtV0 /\
       accountID tl = k.1.1 /\ balance tl = v_balance r /\ limit tl = v_limit r /\
       flags tl = v_flags r /\
       asset tl = (if assettype r =? 0 then ASSET_TYPE_NATIVE
                   else if assettype r =? 1 then ASSET_TYPE_CREDIT_ALPHANUM4 k.2 k.1.2
                   else ASSET_TYPE_CREDIT_ALPHANUM12 k.2 k.1.2) /\
       TrustStore.lineOfRow k r = Some (mkLedgerEntry (v_lastmodified r) (LE_TRUSTLINE tl))).
Proof.
  split.
  - intros pre mid post k' k r' r b s es Hb Hs Hmid Hr H.
    unfold TrustStore.loadLines in H.
    destruct (loadLinesFrom_app _ _ _ _ H) as [tl1 [es1 [H1 [Hd1 _]]]].
    destruct (loadLinesFrom_cons _ _ _ _ _ H1) as [tl2 [es2 [-> [H2 [_ [_ [_ [_ [Hv _]]]]]]]]].
    destruct (loadLinesFrom_app _ _ _ _ H2) as [tl3 [es3 [H3 [Hd3 He3]]]].
    destruct (loadLinesFrom_cons _ _ _ _ _ H3)
      as [tl4 [es4 [-> [_ [Ha [Hbal [Hl [Hf [_ [Hn [Has Hrow]]]]]]]]]]].
    exists tl4. split.
    + rewrite <- lookup_drop, Hd1. simpl.
      replace (length mid) with (length mid + 0)%nat by lia.
      rewrite <- lookup_drop, Hd3. reflexivity.
    + rewrite Hn by exact Hr. rewrite He3 by exact Hmid. split; [apply Hv; assumption|].
      repeat split; auto.
  - intros pre post k r es Hpre Hr H.
    unfold TrustStore.loadLines in H.
    destruct (loadLinesFrom_app _ _ _ _ H) as [tl1 [es1 [H1 [Hd1 He1]]]].
    destruct (loadLinesFrom_cons _ _ _ _ _ H1)
      as [tl2 [es2 [-> [_ [Ha [Hbal [Hl [Hf [_ [Hn [Has Hrow]]]]]]]]]]].
    exists tl2. split.
    + replace (length pre) with (length pre + 0)%nat by lia.
      rewrite <- lookup_drop, Hd1. reflexivity.
    + assert (He : ext tl2 = ExtV0) by (rewrite Hn by exact Hr; rewrite He1 by exact Hpre; reflexivity).
      split; [exact He|]. repeat split; auto.
      rewrite (Hrow Hr). destruct tl2; cbn in He |- *. rewrite He. reflexivity.
Qed.


(** Two rows of one account: a line with liabilities, then one without. *)
Definition usdRow : keyType * valType :=
  (("GHOLDER", "GISSUER", "USD")%string, mkValType 1 10 100 1 3 (Some 5) (Some 7)).
Definition eurRow : keyType * valType :=
  (("GHOLDER", "GISSUER", "EUR")%string, mkValType 1 20 100 1 4 None None).

Lemma loadLines_liabilities_carry_witness :
  (exists es tl, TrustStore.loadLines [usdRow; eurRow] = Some es /\
     es !! 1%nat = Some (mkLedgerEntry 4 (LE_TRUSTLINE tl)) /\ ext tl = ExtV1 (mkLiabilities 5 7)) /\
  (exists es tl, TrustStore.loadLines [eurRow] = Some es /\
     es !! 0%nat = Some (mkLedgerEntry 4 (LE_TRUSTLINE tl)) /\ ext tl = ExtV0).
Proof.
  destruct loadLines_liabilities_carry as [Ha Hb]. split.
  - remember (TrustStore.loadLines [usdRow; eurRow]) as o eqn:Ho.
    vm_compute in Ho. subst o.
    destruct (Ha [] [] [] usdRow.1 eurRow.1 usdRow.2 eurRow.2 5 7 _ eq_refl eq_refl
                 (Forall_nil_2 _) (conj eq_refl eq_refl) eq_refl) as [tl [H1 [H2 _]]].
    do 2 eexists. split; [reflexivity|]. split; [exact H1 | exact H2].
  - remember (TrustStore.loadLines [eurRow]) as o eqn:Ho.
    vm_compute in Ho. subst o.
    destruct (Hb [] [] eurRow.1 eurRow.2 _ (Forall_nil_2 _) (conj eq_refl eq_refl) eq_refl)
      as [tl [H1 [H2 _]]].
    do 2 eexists. split; [reflexivity|]. split; [exact H1 | exact H2].
Defined.

(** The row [storeAddOrChange] writes for a frame (its key fields and
    [rowOf]) is decoded back into the frame's entry, both by [loadLines]
    on a one-row result set and by the row decoding of [loadTrustLine]. *)
Theorem trust_row_roundtrip (tf : TrustFrame) (k : keyType) :
  TrustStore.getKeyFields (TrustStore.getKey tf) = Some k ->
  TrustStore.loadLines [(k, TrustStore.rowOf tf)] = Some [TrustStore.toEntry tf] /\
  TrustStore.lineOfRow k (TrustStore.rowOf tf) = Some (TrustStore.toEntry tf).
Proof.
  destruct tf as [[acc a b l f e] lm iss].
  unfold TrustStore.getKey, TrustStore.getKeyFields. cbn [mTrustLine accountID asset].
  destruct a as [|c i|c i];
    [destruct (String.eqb_spec acc "") | destruct (String.eqb_spec acc i)
    | destruct (String.eqb_spec acc i)]; intros H; try discriminate;
    injection H as <-; destruct e as [|[bu se]]; split; reflexivity.
Qed.

Lemma trust_row_roundtrip_witness :
  TrustStore.loadLines [((StoreFacts.holder, "GISSUER", "USD")%string,
                         TrustStore.rowOf StoreFacts.holderLine)] =
    Some [TrustStore.toEntry StoreFacts.holderLine].
Proof.
  apply (trust_row_roundtrip StoreFacts.holderLine). reflexivity.
Defined.


(** A filter of a finite map that keeps no binding is empty. *)
Lemma size_filter_none {K A} `{Countable K} (P : K * A -> Prop) `{!forall x, Decision (P x)}
  (m : gmap K A) :
  (forall i x, m !! i = Some x -> ~ P (i, x)) -> size (filter P m) = 0%nat.
Proof.
  intros Hn. apply map_size_empty_iff. apply map_eq. intros i.
  rewrite lookup_empty. apply eq_None_not_Some. intros [x Hx].
  apply map_lookup_filter_Some in Hx as [Hx HP]. exact (Hn i x Hx HP).
Qed.

(** [deleteTrustLinesModifiedOnOrAfterLedger(db, n)] keeps exactly the
    trust-line rows last modified before [n], so no row is left in any
    range of ledgers from [n] on; it drops exactly the cached trust-line
    entries last modified at or after [n] (a "known absent" slot and the
    cached data entries stay); it leaves the data tables alone; and
    afterwards [loadTrustLine] returns no non-issuer line last modified at
    or after [n]. *)
Theorem deleteTrustLinesModifiedOnOrAfterLedger_effect (db : Database) (n : Z) :
  let db' := TrustStore.deleteTrustLinesModifiedOnOrAfterLedger db n in
  (forall k r, trustlines db' !! k = Some r <->
               trustlines db !! k = Some r /\ v_lastmodified r < n) /\
  (forall first last, n <= first -> (TrustStore.countObjectsInRange db' first last).1 = 0%nat) /\
  (forall key p, entryCache db' !! key = Some p <->
     entryCache db !! key = Some p /\
     forall le tl, p = Some le -> data le = LE_TRUSTLINE tl -> lastModifiedLedgerSeq le < n) /\
  accountdata db' = accountdata db /\ accountdata_bulk db' = accountdata_bulk db /\
  (forall acc a delta f db'' delta', Some acc <> TrustStore.getIssuer a ->
     TrustStore.loadTrustLine acc a db' delta = Some (Some f, db'', delta') ->
     lastModified f < n).
Proof.
  intros db'.
  assert (Hrow : forall k r, trustlines db' !! k = Some r <->
                   trustlines db !! k = Some r /\ v_lastmodified r < n).
  { intros k r. subst db'. unfold TrustStore.deleteTrustLinesModifiedOnOrAfterLedger.
    cbn [trustlines tick set_trustlines set_entryCache].
    rewrite map_lookup_filter_Some. cbn. rewrite Z.ltb_lt. reflexivity. }
  assert (Hcache : forall key p, entryCache db' !! key = Some p <->
     entryCache db !! key = Some p /\
     forall le tl, p = Some le -> data le = LE_TRUSTLINE tl -> lastModifiedLedgerSeq le < n).
  { intros key p. subst db'. unfold TrustStore.deleteTrustLinesModifiedOnOrAfterLedger.
    cbn [entryCache tick set_trustlines set_entryCache].
    rewrite map_lookup_filter_Some. cbn. unfold TrustStore.trustLineModifiedOnOrAfter.
    split; intros [Hp Hq]; split; try exact Hp.
    - intros le tl -> Hd. rewrite Hd in Hq. apply Z.leb_gt in Hq. lia.
    - destruct p as [le|]; [|reflexivity]. destruct (data le) as [tl|d] eqn:Hd; [|reflexivity].
      apply Z.leb_gt. apply (Hq le tl eq_refl Hd). }
  split; [exact Hrow|]. split; [|split; [exact Hcache|split; [reflexivity|split; [reflexivity|]]]].
  - intros first last Hf. unfold TrustStore.countObjectsInRange. cbn [fst].
    apply size_filter_none. intros i x Hx. apply Hrow in Hx as [_ Hx]. cbn.
    destruct (Z.leb_spec first (v_lastmodified x)); [lia | discriminate].
  - clearbody db'. intros acc a delta f db'' delta' Hiss H. unfold TrustStore.loadTrustLine in H.
    destruct a as [|c i|c i]; [discriminate| |];
      (rewrite bool_decide_eq_false_2 in H by exact Hiss);
      unfold EntryCache.cachedEntryExists, EntryCache.getCachedEntry in H;
      destruct (entryCache db' !! _) as [[e|]|] eqn:Hc; cbn in H;
      try (destruct (TrustStore.fromEntry e) as [ret|] eqn:Hf; [|discriminate];
           injection H as <- _ _;
           unfold TrustStore.fromEntry in Hf; destruct (data e) as [tl|] eqn:Hd; [|discriminate];
           injection Hf as <-; cbn; apply Hcache in Hc as [_ Hc]; exact (Hc e tl eq_refl Hd));
      destruct (trustlines db' !! _) as [row|] eqn:Hr; try discriminate;
      apply Hrow in Hr as [_ Hr];
      repeat case_match; simplify_eq;
      match goal with Hx : Some _ ≫= _ = Some _ |- _ => cbn in Hx; simplify_eq end;
      cbn; exact Hr.
Qed.

(** [deleteDataModifiedOnOrAfterLedger(db, n)] keeps exactly the
    [accountdata] rows last modified before [n]; it drops exactly the
    cached data entries last modified at or after [n]; it leaves the
    trust lines and the [accountdata_bulk] table alone; and afterwards
    [loadData] returns no entry last modified at or after [n]. *)
Theorem deleteDataModifiedOnOrAfterLedger_effect (db : Database) (n : Z) :
  let db' := DataStore.deleteDataModifiedOnOrAfterLedger db n in
  (forall k r, accountdata db' !! k = Some r <->
               accountdata db !! k = Some r /\ d_lastmodified r < n) /\
  (forall first last, n <= first -> (DataStore.countObjectsInRange db' first last).1 = 0%nat) /\
  (forall key p, entryCache db' !! key = Some p <->
     entryCache db !! key = Some p /\
     forall le d, p = Some le -> data le = LE_DATA d -> lastModifiedLedgerSeq le < n) /\
  trustlines db' = trustlines db /\ accountdata_bulk db' = accountdata_bulk db /\
  (forall acc name df, (DataStore.loadData acc name db').1 = Some df -> d_lastModified df < n).
Proof.
  intros db'.
  assert (Hrow : forall k r, accountdata db' !! k = Some r <->
                   accountdata db !! k = Some r /\ d_lastmodified r < n).
  { intros k r. subst db'. unfold DataStore.deleteDataModifiedOnOrAfterLedger.
    cbn [accountdata tick set_accountdata set_entryCache].
    rewrite map_lookup_filter_Some. cbn. rewrite Z.ltb_lt. reflexivity. }
  split; [exact Hrow|]. split; [|split; [|split; [reflexivity|split; [reflexivity|]]]].
  - intros first last Hf. unfold DataStore.countObjectsInRange. cbn [fst].
    apply size_filter_none. intros i x Hx. apply Hrow in Hx as [_ Hx]. cbn.
    destruct (Z.leb_spec first (d_lastmodified x)); [lia | discriminate].
  - intros key p. subst db'. unfold DataStore.deleteDataModifiedOnOrAfterLedger.
    cbn [entryCache tick set_accountdata set_entryCache].
    rewrite map_lookup_filter_Some. cbn. unfold DataStore.dataModifiedOnOrAfter.
    split; intros [Hp Hq]; split; try exact Hp.
    + intros le d -> Hd. rewrite Hd in Hq. apply Z.leb_gt in Hq. lia.
    + destruct p as [le|]; [|reflexivity]. destruct (data le) as [tl|d] eqn:Hd; [reflexivity|].
      apply Z.leb_gt. apply (Hq le d eq_refl Hd).
  - clearbody db'. intros acc name df H. unfold DataStore.loadData in H. cbn [fst] in H.
    destruct (accountdata db' !! (acc, name)) as [r|] eqn:Hr; [|discriminate].
    injection H as <-. apply Hrow in Hr as [_ Hr]. exact Hr.
Qed.


(** Two trust lines in storage, nothing cached. *)
Definition startDelta' : LedgerDelta := mkLedgerDelta 5 [].

Definition twoLinesDb : Database :=
  mkDatabase {[ usdRow.1 := usdRow.2; eurRow.1 := eurRow.2 ]} ∅ ∅ ∅ 0.

Lemma deleteTrustLinesModifiedOnOrAfterLedger_effect_witness :
  (TrustStore.countObjectsInRange
     (TrustStore.deleteTrustLinesModifiedOnOrAfterLedger twoLinesDb 4) 4 10).1 = 0%nat.
Proof.
  destruct (deleteTrustLinesModifiedOnOrAfterLedger_effect twoLinesDb 4) as [_ [H _]].
  apply H. lia.
Defined.

(** One data entry in storage, last modified in ledger 3. *)
Definition oneDataDb : Database :=
  mkDatabase ∅ {[ ("GHOLDER", "name")%string := mkDataRow "old" 3 ]} ∅ ∅ 0.

Lemma deleteDataModifiedOnOrAfterLedger_effect_witness :
  (DataStore.countObjectsInRange
     (DataStore.deleteDataModifiedOnOrAfterLedger oneDataDb 3) 3 10).1 = 0%nat.
Proof.
  destruct (deleteDataModifiedOnOrAfterLedger_effect oneDataDb 3) as [_ [H _]].
  apply H. lia.
Defined.

(** [DataFrame::storeAddOrChange] by mode, mode 0 (the upsert) aside:
    mode 2 (update) succeeds exactly when the [accountdata] row exists and
    records the entry as modified; every other mode (insert) succeeds
    exactly when the row does not exist and records it as added. *)
Theorem data_storeAddOrChange_modes (delta : LedgerDelta) (db : Database) (mode : Z)
  (bulk : bool) (df : DataFrame) :
  let k := (d_accountID (mData df), dataName (mData df)) in
  (mode = 2 -> (is_Some (DataStore.storeAddOrChange delta db mode bulk df) <->
                is_Some (accountdata db !! k))) /\
  (mode <> 0 -> mode <> 2 -> (is_Some (DataStore.storeAddOrChange delta db mode bulk df) <->
                              accountdata db !! k = None)) /\
  (forall d' db' df', mode <> 0 -> DataStore.storeAddOrChange delta db mode bulk df = Some (d', db', df') ->
     d' = if mode =? 2 then Delta.modEntry delta (DataStore.toEntry df')
          else Delta.addEntry delta (DataStore.toEntry df')).
Proof.
  intros k. subst k. unfold DataStore.storeAddOrChange, DataStore.pgUpsert, DataStore.sqlUpdate,
    DataStore.sqlInsert. cbn [DataStore.touch mData].
  destruct (Z.eqb_spec mode 0) as [H0|H0]; [|destruct (Z.eqb_spec mode 2) as [H2|H2]].
  - split; [|split]; intros; lia.
  - split; [|split]; intros; try lia.
    + destruct (accountdata db !! _); split; intros Hs; inversion Hs; try discriminate; eexists; reflexivity.
    + destruct (accountdata db !! _); simplify_eq; reflexivity.
  - split; [|split]; intros; try lia.
    + destruct (accountdata db !! _); split; intros Hs; inversion Hs; try discriminate;
        try reflexivity; eexists; reflexivity.
    + destruct (accountdata db !! _); simplify_eq; reflexivity.
Qed.

Lemma data_storeAddOrChange_modes_witness :
  DataStore.storeAddOrChange startDelta' oneDataDb 1 false
    (mkDataFrame (mkDataEntry "GHOLDER" "name" "new") 5) = None.
Proof.
  destruct (data_storeAddOrChange_modes startDelta' oneDataDb 1 false
              (mkDataFrame (mkDataEntry "GHOLDER" "name" "new") 5)) as [_ [H _]].
  apply eq_None_not_Some. intros Hs. apply H in Hs; [discriminate | lia | lia].
Defined.

(** Reading back a [DataFrame] write: after a successful
    [storeAddOrChange] that writes [accountdata] (any mode but a bulk
    upsert), [loadData] returns the touched frame and [exists] reports the
    entry; a bulk upsert writes [accountdata_bulk] and leaves what
    [loadData] returns unchanged.  After [storeDelete], [loadData] finds
    nothing and [exists] reports the entry absent. *)
Theorem data_write_read_back (delta : LedgerDelta) (db : Database) (mode : Z) (bulk : bool)
  (df : DataFrame) :
  (forall d' db' df',
     DataStore.storeAddOrChange delta db mode bulk df = Some (d', db', df') ->
     df' = DataStore.touch delta df /\
     ((mode <> 0 \/ bulk = false) ->
        (DataStore.loadData (d_accountID (mData df)) (dataName (mData df)) db').1 = Some df' /\
        DataStore.exists_ db' (DataStore.getKey df) = Some (true, tick db')) /\
     (mode = 0 -> bulk = true ->
        (DataStore.loadData (d_accountID (mData df)) (dataName (mData df)) db').1 =
        (DataStore.loadData (d_accountID (mData df)) (dataName (mData df)) db).1)) /\
  (forall acc name d' db',
     DataStore.storeDelete delta db (LK_DATA acc name) = Some (d', db') ->
     (DataStore.loadData acc name db').1 = None /\
     DataStore.exists_ db' (LK_DATA acc name) = Some (false, tick db')).
Proof.
  split.
  - intros d' db' df' Hs.
    destruct df as [[acc name val] lm]. cbn [mData d_accountID dataName] in *.
    unfold DataStore.storeAddOrChange, DataStore.pgUpsert, DataStore.sqlUpdate,
      DataStore.sqlInsert in Hs. cbn [DataStore.touch mData d_accountID dataName dataValue
      d_lastModified] in Hs.
    unfold DataStore.loadData, DataStore.exists_, DataStore.getKey, DataStore.touch.
    cbn [mData d_accountID dataName fst].
    destruct (Z.eqb_spec mode 0) as [H0|H0]; [|destruct (Z.eqb_spec mode 2) as [H2|H2]].
    + destruct bulk.
      * destruct (accountdata_bulk db !! (acc, name)); cbn in Hs; simplify_eq; cbn;
          (split; [reflexivity|split]); intros; [destruct H; [lia|discriminate]|reflexivity|
                                                 destruct H; [lia|discriminate]|reflexivity].
      * destruct (accountdata db !! (acc, name)); cbn in Hs; simplify_eq; cbn;
          rewrite lookup_insert_eq; (split; [reflexivity|split]); intros;
          [split; reflexivity|discriminate|split; reflexivity|discriminate].
    + cbn in Hs. destruct (accountdata db !! (acc, name)); simplify_eq. cbn.
      rewrite lookup_insert_eq. repeat split; intros; try lia; reflexivity.
    + cbn in Hs. destruct (accountdata db !! (acc, name)); simplify_eq. cbn.
      rewrite lookup_insert_eq. repeat split; intros; try lia; reflexivity.
  - intros acc name d' db' Hs. cbn in Hs. simplify_eq.
    unfold DataStore.loadData, DataStore.exists_. cbn.
    rewrite lookup_delete_eq. split; reflexivity.
Qed.

Definition newDataFrame (lm : Z) : DataFrame :=
  mkDataFrame (mkDataEntry "GHOLDER" "name" "new") lm.

Lemma data_write_read_back_witness :
  exists (d' : LedgerDelta) (db' : Database),
    (DataStore.storeAddOrChange startDelta' oneDataDb 2 false (newDataFrame 3) =
     Some (d', db', newDataFrame 5)) /\
    ((DataStore.loadData "GHOLDER" "name" db').1 = Some (newDataFrame 5)).
Proof.
  destruct (data_write_read_back startDelta' oneDataDb 2 false (newDataFrame 3)) as [H _].
  do 2 eexists. split; [vm_compute; reflexivity|].
  edestruct H as [_ [Hr _]]; [vm_compute; reflexivity|].
  apply Hr. left. lia.
Defined.

(** The accumulator flush runs statements on the session only: it leaves
    the entry cache as it is. *)
Lemma flush_entryCache (items : trustlinesAccumulator) (db : Database) :
  entryCache (Accumulator.flush items db) = entryCache db.
Proof.
  unfold Accumulator.flush. destruct (Accumulator.partitionItems (map_to_list items)) as [ups dels].
  by destruct ups, dels.
Qed.

(** A trust-line write through an accumulator: the [trustlines] table is
    left as it was until the accumulator is flushed; after the flush,
    [loadTrustLine] returns the written (touched) line, with no cache entry
    in the way. *)
Theorem accumulated_write_read_back (delta : LedgerDelta) (db : Database)
  (items : trustlinesAccumulator) (tf : TrustFrame) d' db' accs' tf' :
  mIsIssuer tf = false -> asset (mTrustLine tf) <> ASSET_TYPE_NATIVE ->
  TrustStore.storeAddOrChange delta db (Some items) tf = Some (d', db', accs', tf') ->
  tf' = TrustStore.touch delta tf /\
  trustlines db' = trustlines db /\
  exists items', accs' = Some items' /\
  exists db'', TrustStore.loadTrustLine (accountID (mTrustLine tf)) (asset (mTrustLine tf))
                 (Accumulator.flush items' db') None
    = Some (Some (mkTrustFrame (mTrustLine tf) (lastModified tf') false), db'', None).
Proof.
  destruct tf as [[acc a b l f e] lm isu]; cbn [mIsIssuer mTrustLine asset accountID].
  intros -> Ha H. unfold TrustStore.storeAddOrChange in H. cbn in H.
  destruct a as [|c i|c i]; [contradiction| |];
    cbn in H; destruct (String.eqb_spec acc i) as [Heq|Hne]; try discriminate;
    injection H as <- <- <- <-; (split; [reflexivity|]); (split; [reflexivity|]);
    eexists; (split; [reflexivity|]);
    unfold TrustStore.loadTrustLine;
    (rewrite bool_decide_eq_false_2 by (cbn; congruence));
    unfold cachedEntryExists, getCachedEntry; rewrite flush_entryCache;
    cbn [entryCache flushCachedEntry set_entryCache TrustStore.getKey mTrustLine accountID asset];
    rewrite lookup_delete_eq; cbn -[Accumulator.flush];
    rewrite AccumulatorFacts.flush_lookup; unfold Accumulator.stageUpsert;
    rewrite lookup_insert_eq; cbn;
    destruct e as [|[bl sl]]; eexists; reflexivity.
Qed.

Lemma accumulated_write_read_back_witness :
  exists d' db' accs' tf',
    TrustStore.storeAddOrChange startDelta' StoreFacts.cachedLineDb (Some ∅) StoreFacts.holderLine
      = Some (d', db', accs', tf') /\
    tf' = TrustStore.touch startDelta' StoreFacts.holderLine /\
    trustlines db' = ∅.
Proof.
  do 4 eexists. split; [reflexivity|].
  edestruct (accumulated_write_read_back startDelta' StoreFacts.cachedLineDb ∅
               StoreFacts.holderLine) as [Ht [Hs _]];
    [reflexivity|discriminate|reflexivity|].
  split; [exact Ht | exact Hs].
Defined.

(** The frame [loadTrustLine] builds from a row: the row key's account
    and a frame that the cache round-trips. *)
Lemma lineOfRow_frame (k : keyType) (row : valType) (ret : TrustFrame) :
  TrustStore.lineOfRow k row ≫= TrustStore.fromEntry = Some ret ->
  accountID (mTrustLine ret) = k.1.1 /\ TrustStore.fromEntry (TrustStore.toEntry ret) = Some ret.
Proof.
  destruct k as [[acc iss] code]. unfold TrustStore.lineOfRow. intros H.
  repeat case_match; simplify_eq; cbn in H; simplify_eq; split; reflexivity.
Qed.

(** A line [loadTrustLine] has returned (its asset being the one asked for)
    is from then on answered from the entry cache, without a query and
    even after an accumulator flush that rewrote or deleted its row: the
    flush does not touch the cache. *)
Theorem loaded_line_survives_flush (acc : string) (a : Asset) (db : Database)
  (delta : option LedgerDelta) (f : TrustFrame) (db1 : Database) (delta1 : option LedgerDelta)
  (items : trustlinesAccumulator) :
  asset (mTrustLine f) = a ->
  TrustStore.loadTrustLine acc a db delta = Some (Some f, db1, delta1) ->
  TrustStore.loadTrustLine acc a (Accumulator.flush items db1) None =
    Some (Some f, Accumulator.flush items db1, None).
Proof.
  intros Hfa H. unfold TrustStore.loadTrustLine in *.
  destruct a as [|c i|c i]; [discriminate| |].
  all: destruct (bool_decide (Some acc = TrustStore.getIssuer _));
    [cbn -[Accumulator.flush] in *; injection H as <- <- _; reflexivity|].
  all: unfold cachedEntryExists, getCachedEntry in *; rewrite flush_entryCache.
  all: destruct (entryCache db !! LK_TRUSTLINE acc _) as [[p|]|] eqn:Hp;
    rewrite ?Hp; cbn -[Accumulator.flush TrustStore.lineOfRow] in H |- *.
  all: try (destruct (TrustStore.fromEntry p) as [ret|] eqn:Hr; [|discriminate];
            injection H as <- <- _; rewrite Hp, bool_decide_eq_true_2 by (eexists; reflexivity);
            cbn -[Accumulator.flush]; rewrite Hr; reflexivity).
  all: destruct (trustlines db !! _) as [row|]; [|discriminate].
  all: match goal with
       | H : match ?m with Some _ => _ | None => None end = Some _ |- _ =>
           destruct m as [ret|] eqn:Hret; [|discriminate]
       end.
  all: injection H as <- <- _.
  all: destruct (lineOfRow_frame _ _ _ Hret) as [Hacc Hfe]; cbn in Hacc.
  all: assert (Hk : TrustStore.getKey ret = LK_TRUSTLINE acc (asset (mTrustLine ret)))
         by (unfold TrustStore.getKey; rewrite Hacc; reflexivity); rewrite Hfa in Hk.
  all: unfold putCachedEntry; cbn [entryCache set_entryCache tick]; rewrite Hk, lookup_insert_eq,
         bool_decide_eq_true_2 by (eexists; reflexivity);
       cbn -[Accumulator.flush TrustStore.fromEntry TrustStore.toEntry]; rewrite Hfe; reflexivity.
Qed.

(** The holder's USD line stored, nothing cached. *)
Definition holderKey : keyType := (StoreFacts.holder, "GISSUER", "USD")%string.

Definition holderDb : Database :=
  mkDatabase {[ holderKey := TrustStore.rowOf StoreFacts.holderLine ]} ∅ ∅ ∅ 0.

(** The line is loaded, then a delete of its row is flushed: storage no
    longer has the row, yet the next load still returns the line. *)
Lemma loaded_line_survives_flush_witness :
  exists db1,
    TrustStore.loadTrustLine StoreFacts.holder StoreFacts.usd holderDb None =
      Some (Some StoreFacts.holderLine, db1, None) /\
    trustlines (Accumulator.flush {[ holderKey := None ]} db1) !! holderKey = None /\
    TrustStore.loadTrustLine StoreFacts.holder StoreFacts.usd
      (Accumulator.flush {[ holderKey := None ]} db1) None =
      Some (Some StoreFacts.holderLine, Accumulator.flush {[ holderKey := None ]} db1, None).
Proof.
  eexists. split; [reflexivity|]. split; [reflexivity|].
  apply (loaded_line_survives_flush StoreFacts.holder StoreFacts.usd holderDb None
           StoreFacts.holderLine _ None); reflexivity.
Defined.

(** A miss of [loadTrustLine] is not remembered: the known-absent slot it
    leaves in the cache is not trusted, so loading the same missing line
    again issues the storage query again (one more statement) and leaves
    everything else as it was. *)
Theorem missing_line_queried_again (acc : string) (a : Asset) (db : Database)
  (delta : option LedgerDelta) (db1 : Database) (delta1 : option LedgerDelta) :
  TrustStore.loadTrustLine acc a db delta = Some (None, db1, delta1) ->
  delta1 = delta /\ trustlines db1 = trustlines db /\ queries db1 = S (queries db) /\
  TrustStore.loadTrustLine acc a db1 delta1 = Some (None, tick db1, delta1).
Proof.
  intros H. unfold TrustStore.loadTrustLine in *.
  destruct a as [|c i|c i]; [discriminate| |].
  all: destruct (bool_decide (Some acc = TrustStore.getIssuer _)); [cbn in H; discriminate|].
  all: unfold cachedEntryExists, getCachedEntry in *.
  all: destruct (entryCache db !! LK_TRUSTLINE acc _) as [[p|]|] eqn:Hp;
    rewrite ?Hp; cbn -[TrustStore.lineOfRow] in H.
  all: try (destruct (TrustStore.fromEntry p); discriminate).
  all: destruct (trustlines db !! _) as [row|] eqn:Hrow;
    [destruct (TrustStore.lineOfRow _ row ≫= TrustStore.fromEntry); discriminate|].
  all: injection H as <- <-; cbn [trustlines queries tick putCachedEntry set_entryCache];
    (split; [reflexivity|]); (split; [reflexivity|]); (split; [reflexivity|]).
  all: cbn [entryCache putCachedEntry set_entryCache tick]; rewrite lookup_insert_eq,
         bool_decide_eq_true_2 by (eexists; reflexivity);
       cbn [trustlines tick putCachedEntry set_entryCache]; rewrite Hrow.
  all: unfold putCachedEntry, set_entryCache, tick; cbn; rewrite insert_insert_eq; reflexivity.
Qed.

Lemma missing_line_queried_again_witness :
  exists db1,
    TrustStore.loadTrustLine StoreFacts.holder StoreFacts.usd BucketFacts.emptyDb None =
      Some (None, db1, None) /\
    TrustStore.loadTrustLine StoreFacts.holder StoreFacts.usd db1 None = Some (None, tick db1, None).
Proof.
  eexists. split; [reflexivity|].
  edestruct (missing_line_queried_again StoreFacts.holder StoreFacts.usd BucketFacts.emptyDb None)
    as [_ [_ [_ Hl]]]; [reflexivity|]. exact Hl.
Defined.

(** [TrustFrame::exists] after a direct write: after [storeAddOrChange]
    without an accumulator of a non-issuer frame, [exists] on the frame's key
    reports the line (one query: the write flushed the cache slot); after a
    direct [storeDelete], [exists] on the key reports it absent. *)
Theorem trust_exists_after_direct_write :
  (forall delta db tf d' db' tf',
     mIsIssuer tf = false ->
     TrustStore.storeAddOrChange delta db None tf = Some (d', db', None, tf') ->
     TrustStore.exists_ db' (TrustStore.getKey tf) = Some (true, tick db')) /\
  (forall delta db key d' db',
     TrustStore.storeDelete delta db key None = Some (d', db', None) ->
     TrustStore.exists_ db' key = Some (false, tick db')).
Proof.
  split.
  - intros delta db tf d' db' tf' Hi H. unfold TrustStore.storeAddOrChange in H.
    rewrite Hi in H. destruct (TrustStore.getKeyFields (TrustStore.getKey tf)) as [k|] eqn:Hk;
      [|discriminate].
    injection H as _ <- _. unfold TrustStore.exists_, cachedEntryExists.
    cbn [entryCache tick set_trustlines flushCachedEntry set_entryCache].
    rewrite lookup_delete_eq, bool_decide_eq_false_2 by (intros [? ?]; discriminate).
    cbn [andb]. rewrite Hk. cbn [trustlines tick set_trustlines flushCachedEntry set_entryCache].
    rewrite lookup_insert_eq, bool_decide_eq_true_2 by (eexists; reflexivity). reflexivity.
  - intros delta db key d' db' H. unfold TrustStore.storeDelete in H.
    destruct (TrustStore.getKeyFields key) as [k|] eqn:Hk; [|discriminate].
    injection H as _ <-. unfold TrustStore.exists_, cachedEntryExists.
    cbn [entryCache tick set_trustlines flushCachedEntry set_entryCache].
    rewrite lookup_delete_eq, bool_decide_eq_false_2 by (intros [? ?]; discriminate).
    cbn [andb]. rewrite Hk. cbn [trustlines tick set_trustlines flushCachedEntry set_entryCache].
    rewrite lookup_delete_eq, bool_decide_eq_false_2 by (intros [? ?]; discriminate). reflexivity.
Qed.

Lemma trust_exists_after_direct_write_witness :
  exists d' db' tf',
    TrustStore.storeAddOrChange startDelta' StoreFacts.knownAbsentDb None StoreFacts.holderLine =
      Some (d', db', None, tf') /\
    TrustStore.exists_ db' StoreFacts.usdKey = Some (true, tick db').
Proof.
  do 3 eexists. split; [reflexivity|].
  destruct trust_exists_after_direct_write as [Hw _].
  eapply (Hw startDelta' StoreFacts.knownAbsentDb StoreFacts.holderLine); reflexivity.
Defined.

Section BucketPrefix.
Context {BucketEntry : Type} (applyEntry : Database -> BucketEntry -> Database).

(** One [advance()] loop from counter [s] applies, in order, the entries it
    consumes. *)
Lemma advance_loop_db (it : list BucketEntry) (db : Database) (s : Z) :
  0 <= s -> s + Z.of_nat (length it) < 2 ^ 64 ->
  (advance_loop applyEntry db it s).1.1 =
    fold_left applyEntry (take (Z.to_nat (256 - (s + 1) mod 256)) it) db.
Proof.
  revert db s. induction it as [|e rest IH]; intros db s Hs Hlen.
  - simpl. rewrite take_nil. reflexivity.
  - simpl in Hlen |- *.
    assert (Hm : (s + 1) mod 2 ^ 64 = s + 1) by (apply Z.mod_small; lia).
    rewrite Hm.
    change 255 with (Z.ones 8). rewrite Z.land_ones by lia.
    change (Z.ones 8) with 255. change (2 ^ 8) with 256.
    assert (Hn : 0 <= (s + 1) mod 256 < 256) by (apply Z.mod_pos_bound; lia).
    assert (Hj : Z.to_nat (256 - (s + 1) mod 256) = S (Z.to_nat (255 - (s + 1) mod 256))) by lia.
    rewrite Hj. cbn [take fold_left].
    destruct (Z.eqb_spec ((s + 1) mod 256) 255) as [Heq|Hne].
    + rewrite Heq. reflexivity.
    + rewrite (IH (applyEntry db e) (s + 1)) by lia.
      assert (Hs2 : (s + 1 + 1) mod 256 = (s + 1) mod 256 + 1).
      { rewrite <- Z.add_mod_idemp_l by lia. apply Z.mod_small. lia. }
      rewrite Hs2. do 2 f_equal. lia.
Qed.

End BucketPrefix.

Lemma advance_fold_prefix {BucketEntry : Type}
  (applyEntry : Database -> BucketEntry -> Database) (db : Database) (l : list BucketEntry) (k : nat) :
  Z.of_nat (length l) < 2 ^ 64 ->
  mDb _ (Nat.iter k (advance applyEntry) (mkApplicator db l)) =
    fold_left applyEntry (take (256 * k - 1) l) db.
Proof.
  intros Hlen. induction k as [|k IH].
  - reflexivity.
  - pose proof (BucketFacts.advance_iter applyEntry db l k Hlen) as [Hit Hs].
    rewrite Nat.iter_succ.
    destruct (Nat.iter k (advance applyEntry) (mkApplicator db l)) as [db' it s].
    cbn [mBucketIter mSize mDb] in IH, Hit, Hs.
    unfold advance. cbn [mBucketIter mSize mDb].
    pose proof (advance_loop_db applyEntry it db' s) as Hd.
    destruct (advance_loop applyEntry db' it s) as [[db'' it'] s'].
    cbn [fst snd mDb] in Hd |- *.
    rewrite Hd by (try rewrite Hit, length_drop; lia).
    rewrite IH, Hit, <- fold_left_app, take_take_drop.
    destruct (decide (length l <= 256 * k - 1)%nat) as [Hle|Hgt].
    + rewrite !take_ge by lia. reflexivity.
    + assert (Hsv : s = Z.of_nat (256 * k - 1)) by lia.
      f_equal. f_equal. rewrite Hsv. destruct k as [|k']; [reflexivity|].
      replace (Z.of_nat (256 * S k' - 1) + 1) with (Z.of_nat (S k') * 256) by lia.
      rewrite Z.mod_mul by lia. lia.
Qed.

Lemma advance_loop_shape {BucketEntry : Type}
  (applyEntry : Database -> BucketEntry -> Database) (it : list BucketEntry) (db db' : Database) (s : Z) :
  (advance_loop applyEntry db it s).1.2 = (advance_loop applyEntry db' it s).1.2 /\
  (advance_loop applyEntry db it s).2 = (advance_loop applyEntry db' it s).2.
Proof.
  revert db db' s. induction it as [|e rest IH]; intros db db' s; [done|].
  cbn [advance_loop]. destruct (Z.land _ 255 =? 255); [done|]. apply IH.
Qed.

Lemma advance_with_accumulator_shape {BucketEntry : Type}
  (applyEntry : Database -> BucketEntry -> Database) (isPG : bool)
  (mergeAccumulated : Database -> Database) (ba : BucketApplicator BucketEntry) (k : nat) :
  mBucketIter (Nat.iter k (advance_with_accumulator applyEntry isPG mergeAccumulated) ba) =
    mBucketIter (Nat.iter k (advance applyEntry) ba) /\
  mSize (Nat.iter k (advance_with_accumulator applyEntry isPG mergeAccumulated) ba) =
    mSize (Nat.iter k (advance applyEntry) ba).
Proof.
  induction k as [|k [Hi Hs]]; [done|]. rewrite !Nat.iter_succ.
  destruct (Nat.iter k (advance_with_accumulator applyEntry isPG mergeAccumulated) ba) as [d1 i1 s1].
  destruct (Nat.iter k (advance applyEntry) ba) as [d2 i2 s2].
  cbn [mBucketIter mSize] in Hi, Hs. subst i2 s2.
  unfold advance_with_accumulator, advance. cbn [mBucketIter mSize mDb].
  pose proof (advance_loop_shape applyEntry i1 d1 d2 s1) as [Ha Hb].
  destruct (advance_loop applyEntry d1 i1 s1) as [[x1 y1] z1].
  destruct (advance_loop applyEntry d2 i1 s1) as [[x2 y2] z2].
  cbn in Ha, Hb. subst. destruct isPG; done.
Qed.

Lemma advance_with_accumulator_not_pg {BucketEntry : Type}
  (applyEntry : Database -> BucketEntry -> Database) (mergeAccumulated : Database -> Database)
  (ba : BucketApplicator BucketEntry) (k : nat) :
  Nat.iter k (advance_with_accumulator applyEntry false mergeAccumulated) ba =
    Nat.iter k (advance applyEntry) ba.
Proof.
  induction k as [|k IH]; [done|]. rewrite !Nat.iter_succ, IH. reflexivity.
Qed.

(** [BucketApplicator::advance], with its [accumulator] block, consumes the
    bucket in chunks: after [k] calls on a fresh applicator the iterator has
    passed the first [256 * k - 1] entries, whatever the backend.  When the
    database is not PostgreSQL, it applies the bucket's entries in order,
    each once: the database is the one obtained by applying those first
    [256 * k - 1] entries (all of them once the bucket is exhausted) one
    after the other. *)
Theorem advance_applies_prefix {BucketEntry : Type}
  (applyEntry : Database -> BucketEntry -> Database) (isPG : bool)
  (mergeAccumulated : Database -> Database) (db : Database) (l : list BucketEntry) (k : nat) :
  Z.of_nat (length l) < 2 ^ 64 ->
  mBucketIter (Nat.iter k (advance_with_accumulator applyEntry isPG mergeAccumulated)
                 (mkApplicator db l)) = drop (256 * k - 1) l /\
  (isPG = false ->
   mDb _ (Nat.iter k (advance_with_accumulator applyEntry isPG mergeAccumulated) (mkApplicator db l)) =
     fold_left applyEntry (take (256 * k - 1) l) db).
Proof.
  intros Hlen. split.
  - rewrite (proj1 (advance_with_accumulator_shape applyEntry isPG mergeAccumulated _ k)).
    exact (proj1 (BucketFacts.advance_iter applyEntry db l k Hlen)).
  - intros ->. rewrite advance_with_accumulator_not_pg. exact (advance_fold_prefix applyEntry db l k Hlen).
Qed.

(** Applying an entry costs one statement. *)
Definition countEntry (db : Database) (_ : nat) : Database := tick db.

Lemma advance_applies_prefix_witness :
  queries (mDb _ (Nat.iter 2 (advance_with_accumulator countEntry false id)
                   (mkApplicator BucketFacts.emptyDb (seq 0 300)))) = 300%nat.
Proof.
  destruct (advance_applies_prefix countEntry false id BucketFacts.emptyDb (seq 0 300) 2)
    as [_ H]; [rewrite length_seq; lia|].
  rewrite (H eq_refl). vm_compute. reflexivity.
Defined.

(** The frame built for one row of a [loadLines] result set: a frame of a
    non-issuer line with the row's account, balance, limit, flags and
    last-modified ledger. *)
Definition frameOfRow (kr : keyType * valType) (f : TrustFrame) : Prop :=
  mIsIssuer f = false /\ accountID (mTrustLine f) = kr.1.1.1 /\
  balance (mTrustLine f) = v_balance kr.2 /\ limit (mTrustLine f) = v_limit kr.2 /\
  flags (mTrustLine f) = v_flags kr.2 /\ lastModified f = v_lastmodified kr.2.

Lemma loadLinesFrom_frames (tl : TrustLineEntry) (rows : list (keyType * valType))
  (es : list LedgerEntry) (fs : list TrustFrame) :
  TrustStore.loadLinesFrom tl rows = Some es -> mapM TrustStore.fromEntry es = Some fs ->
  Forall2 frameOfRow rows fs.
Proof.
  revert tl es fs. induction rows as [|[[[acc iss] code] row] rows IH]; intros tl es fs Hl Hm.
  - cbn in Hl. injection Hl as <-. cbn in Hm. injection Hm as <-. constructor.
  - cbn [TrustStore.loadLinesFrom] in Hl.
    repeat case_match; simplify_eq; cbn in Hm;
      (destruct (mapM TrustStore.fromEntry _) as [fs'|] eqn:Hm'; cbn in Hm; [|discriminate]);
      injection Hm as <-; (constructor; [repeat split | eapply IH; eassumption]).
Qed.

Lemma Forall2_Forall_exists {A B} (R : A -> B -> Prop) (l1 : list A) (l2 : list B) :
  Forall2 R l1 l2 -> Forall (fun y => exists x, x ∈ l1 /\ R x y) l2.
Proof.
  induction 1 as [|x y l1 l2 Hxy _ IH]; constructor.
  - exists x. split; [left|exact Hxy].
  - eapply Forall_impl; [exact IH|]. intros z [w [Hw Hr]]. exists w. split; [right; exact Hw|exact Hr].
Qed.

Lemma size_filter_rows (acc : string) (m : gmap keyType valType) :
  size (filter (fun kv : keyType * valType => kv.1.1.1 = acc) m) =
  length (filter (fun kv : keyType * valType => kv.1.1.1 = acc) (map_to_list m)).
Proof.
  rewrite <- length_map_to_list, map_filter_alt.
  apply Permutation_length, map_to_list_to_map.
  apply (sublist_NoDup _ ((map_to_list m).*1)); [apply NoDup_fst_map_to_list | apply fmap_sublist, sublist_filter].
Qed.

(** [TrustFrame::loadLines(accountID, retLines, db)]: one statement; when
    it succeeds it returns one frame per [trustlines] row of the account,
    each a non-issuer frame of that account carrying the balance, limit,
    flags and last-modified ledger of one of the account's rows. *)
Theorem loadLinesOfAccount_rows (acc : string) (db : Database) (fs : list TrustFrame)
  (db' : Database) :
  TrustStore.loadLinesOfAccount acc db = (Some fs, db') ->
  db' = tick db /\
  length fs = size (filter (fun kv : keyType * valType => kv.1.1.1 = acc) (trustlines db)) /\
  Forall (fun f => mIsIssuer f = false /\ accountID (mTrustLine f) = acc /\
            exists (k : keyType) (row : valType), trustlines db !! k = Some row /\ k.1.1 = acc /\
              balance (mTrustLine f) = v_balance row /\ limit (mTrustLine f) = v_limit row /\
              flags (mTrustLine f) = v_flags row /\ lastModified f = v_lastmodified row) fs.
Proof.
  unfold TrustStore.loadLinesOfAccount, TrustStore.loadLines. intros H.
  destruct (TrustStore.loadLinesFrom TrustStore.defaultTrustLine _) as [es|] eqn:Hl;
    [|discriminate].
  cbn in H. destruct (mapM TrustStore.fromEntry es) as [fs'|] eqn:Hm; [|discriminate].
  injection H as <- <-.
  pose proof (loadLinesFrom_frames _ _ _ _ Hl Hm) as H2.
  split; [reflexivity|]. split.
  - rewrite size_filter_rows. symmetry. exact (Forall2_length _ _ _ H2).
  - eapply Forall_impl; [exact (Forall2_Forall_exists _ _ _ H2)|].
    intros f [[k row] [Hin (Hi & Ha & Hb & Hlim & Hf & Hlm)]].
    apply list_elem_of_filter in Hin as [Hacc Hin]. apply elem_of_map_to_list in Hin.
    cbn in *. split; [exact Hi|]. split; [congruence|].
    exists k, row. repeat split; assumption.
Qed.

(** The holder's USD and EUR lines, and the issuer's own line of another
    asset. *)
Definition threeLinesDb : Database :=
  mkDatabase {[ usdRow.1 := usdRow.2; eurRow.1 := eurRow.2;
                ("GISSUER", "GOTHER", "BTC")%string := mkValType 1 1 1 1 1 None None ]} ∅ ∅ ∅ 0.

Lemma loadLinesOfAccount_rows_witness :
  exists fs, TrustStore.loadLinesOfAccount "GHOLDER" threeLinesDb = (Some fs, tick threeLinesDb) /\
    length fs = 2%nat.
Proof.
  eexists. split; [reflexivity|].
  edestruct (loadLinesOfAccount_rows "GHOLDER" threeLinesDb) as [_ [Hlen _]]; [reflexivity|].
  rewrite Hlen. vm_compute. reflexivity.
Defined.

(** The amounts a non-issuer line reports, for a line within its bounds:
    [0 <= getAvailableBalance <= balance <= getMinimumLimit <= limit], and
    [getMaxAmountReceive] is the room between [getMinimumLimit] and the
    limit when the line is authorized, 0 otherwise. *)
Theorem line_amounts (tf : TrustFrame) (v : LedgerVersion) :
  mIsIssuer tf = false -> liabilitiesOk tf v ->
  exists ab ml, getAvailableBalance tf v = Some ab /\ getMinimumLimit tf v = Some ml /\
    0 <= ab <= getBalance tf /\ getBalance tf <= ml <= limit (mTrustLine tf) /\
    getMaxAmountReceive tf v = Some (if isAuthorized tf then limit (mTrustLine tf) - ml else 0).
Proof.
  destruct tf as [[acc a b l f e] lm iss]. unfold liabilitiesOk.
  cbn [mIsIssuer mTrustLine balance limit]. intros -> [Hb0 [Hbl Hv]].
  unfold_line. cbn [mIsIssuer mTrustLine balance limit].
  destruct (Z.leb_spec 10 v) as [H10|H10].
  - destruct (Hv H10) as (Hbu & Hse & Hsb & Hlim).
    do 2 eexists. split; [reflexivity|]. split; [reflexivity|].
    split; [lia|]. split; [lia|]. destruct (isAuthorized _); f_equal; lia.
  - do 2 eexists. split; [reflexivity|]. split; [reflexivity|].
    split; [lia|]. split; [lia|]. destruct (isAuthorized _); f_equal; lia.
Qed.

Lemma line_amounts_witness :
  exists ab ml, getAvailableBalance TrustLineFacts.example_line 10 = Some ab /\
    getMinimumLimit TrustLineFacts.example_line 10 = Some ml.
Proof.
  destruct (line_amounts TrustLineFacts.example_line 10 eq_refl example_line_ok)
    as (ab & ml & H1 & H2 & _).
  exists ab, ml. split; assumption.
Defined.

End ExtraFacts.
